(** * Verification of the completion extractor of [ai_generator.py]

    The development embeds [generate_widget_html] of [src/ai_generator.py]:
    the credential check, the model fallback loop of [call_anthropic_api],
    the seven-way extraction cascade and [clean_html].

    A Python [str] is modelled as the list of its Unicode code points, so
    that white space and case are those of Python: [str.strip] and [\s] take
    the Unicode white space, and [re.IGNORECASE] equates the letters of the
    patterns with their upper case and with the few code points outside ASCII
    that the [re] module folds onto them.  Python's regular expressions are
    embedded through a small backtracking matcher with the priorities of the
    [re] module (greedy and lazy repetition, ordered alternation, one capture
    group, leftmost search). *)

From Stdlib Require Import String Ascii Bool Arith NArith Lia List.
Import ListNotations.

Set Implicit Arguments.

(** ** Python strings *)

(** A character is a Unicode code point. *)
Definition char := N.

Definition str := list char.

(** The code point of an ASCII character. *)
Definition code (a : ascii) : char := N_of_ascii a.

Arguments code a%_char.

(** The text of an ASCII literal. *)
Definition lit (s : string) : str := map code (list_ascii_of_string s).

Arguments lit s%_string.

Module Py.

(** [str.isspace] on one code point, which is also [\s] of the [re] module
    on a [str]: TAB..CR, FS..US, the blank, U+0085, U+00A0, U+1680,
    U+2000..U+200A, U+2028, U+2029, U+202F, U+205F and U+3000. *)
Definition is_space (c : char) : bool :=
  ((9 <=? c) && (c <=? 13) || (28 <=? c) && (c <=? 32)
   || (c =? 133) || (c =? 160) || (c =? 5760)
   || (8192 <=? c) && (c <=? 8202)
   || (c =? 8232) || (c =? 8233) || (c =? 8239) || (c =? 8287)
   || (c =? 12288))%N.

Definition is_upper (c : char) : bool := ((65 <=? c) && (c <=? 90))%N.

Definition is_lower (c : char) : bool := ((97 <=? c) && (c <=? 122))%N.

(** The one-to-one lower case the [re] module folds a character with.  The
    code points written out are those whose lower case is in ASCII: the
    capital letters, U+0130 (capital I with a dot) and U+212A (the Kelvin
    sign); the patterns of the source hold ASCII only. *)
Definition lower_char (c : char) : char :=
  (if is_upper c then c + 32
   else if c =? 304 then 105
   else if c =? 8490 then 107
   else c)%N.

Definition upper_char (c : char) : char :=
  (if is_lower c then c - 32 else c)%N.

(** [c.lower()]: as [lower_char], but U+0130 gives [i] and U+0307.  The
    other code points outside ASCII have a lower case outside ASCII; the
    source looks only for ASCII tokens in a lowered text, and the model
    leaves them as they are. *)
Definition lower_text (c : char) : str :=
  (if c =? 304 then [105; 775] else [lower_char c])%N.

(** [s.lower()] *)
Definition lower (s : str) : str := flat_map lower_text s.

Fixpoint lstrip (s : str) : str :=
  match s with
  | c :: s' => if is_space c then lstrip s' else s
  | [] => []
  end.

Definition rstrip (s : str) : str := rev (lstrip (rev s)).

(** [s.strip()] *)
Definition strip (s : str) : str := rstrip (lstrip s).

Definition eqc (a b : char) : bool := N.eqb a b.

(** [s.startswith(p)] *)
Fixpoint startswith (p s : str) : bool :=
  match p, s with
  | [], _ => true
  | a :: p', b :: s' => eqc a b && startswith p' s'
  | _ :: _, [] => false
  end.

(** [s.endswith(p)] *)
Definition endswith (p s : str) : bool := startswith (rev p) (rev s).

(** [p in s] *)
Fixpoint contains (p s : str) : bool :=
  startswith p s ||
  match s with
  | [] => false
  | _ :: s' => contains p s'
  end.

(** Number of positions of [s] at which [p] starts. *)
Fixpoint occurrences (p s : str) : nat :=
  (if startswith p s then 1 else 0) +
  match s with
  | [] => 0
  | _ :: s' => occurrences p s'
  end.

Definition nl : char := 10%N.

Definition cons_first (c : char) (ps : list str) : list str :=
  match ps with
  | p :: ps' => (c :: p) :: ps'
  | [] => [[c]]
  end.

(** [s.split('\n')] *)
Fixpoint split_nl (s : str) : list str :=
  match s with
  | [] => [[]]
  | c :: s' => if eqc c nl then [] :: split_nl s' else cons_first c (split_nl s')
  end.

(** ['\n'.join(ls)] *)
Fixpoint join_nl (ls : list str) : str :=
  match ls with
  | [] => []
  | [l] => l
  | l :: ls' => l ++ nl :: join_nl ls'
  end.

(** [any(t in s for t in ts)] *)
Definition any_in (ts : list str) (s : str) : bool :=
  existsb (fun t => contains t s) ts.

End Py.

(** ** Exceptions *)

(** Only the text of an exception, [str(e)], is ever observed by the code. *)
Inductive exn : Type :=
| Exception (msg : str)
| IndexError.

Definition exn_str (e : exn) : str :=
  match e with
  | Exception msg => msg
  | IndexError => lit "list index out of range"
  end.

Inductive result (A : Type) : Type :=
| Ok (a : A)
| Raise (e : exn).

Arguments Ok {A} a.
Arguments Raise {A} e.

Definition bind {A B : Type} (m : result A) (f : A -> result B) : result B :=
  match m with
  | Ok a => f a
  | Raise e => Raise e
  end.

Notation "x <- m ;; k" := (bind m (fun x => k))
  (at level 61, m at next level, right associativity).

(** [ls[0]] *)
Definition index0 {A : Type} (ls : list A) : result A :=
  match ls with
  | x :: _ => Ok x
  | [] => Raise IndexError
  end.

(** ** Regular expressions *)

Module Re.

(** Character sets of the patterns: [.] under DOTALL, [\s], [[^c]] and
    [[a-b]]. *)
Inductive cset : Type :=
| Any
| Space
| Not (c : char)
| Range (lo hi : char).

(** The fragment of the [re] syntax the source uses.  Every repetition in the
    source is over a single character set. *)
Inductive re : Type :=
| Lit (p : str)
| Star (cs : cset)
| Plus (cs : cset)
| Lazy (cs : cset)
| Cat (r1 r2 : re)
| Alt (r1 r2 : re)
| Grp (r : re).

(** A match object: the text before the match, [group(0)], [group(1)] and
    the text after the match. *)
Record rmatch : Type := MkMatch {
  m_pre : str;
  m_text : str;
  m_group : option str;
  m_post : str
}.

Definition m_start (m : rmatch) : nat := length (m_pre m).

(** [m.group(1)]; no pattern of the source leaves its group unset. *)
Definition group1 (m : rmatch) : str :=
  match m_group m with
  | Some g => g
  | None => []
  end.

Definition in_range (lo hi c : char) : bool := ((lo <=? c) && (c <=? hi))%N.

(** The code points outside the reach of [lower_char] that [re.IGNORECASE]
    equates with a lower-case letter: U+0131 (dotless i) with [i] and U+017F
    (long s) with [s]. *)
Definition fixes (lo : char) : list char :=
  (if lo =? 105 then [305] else if lo =? 115 then [383] else [])%N.

Section Matcher.

(** [re.IGNORECASE] *)
Variable ic : bool.

(** The pattern character [a] against the character [b] of the text: under
    IGNORECASE the lower case of [b] is looked up among the lower case of
    [a] and its [fixes]. *)
Definition chr_eq (a b : char) : bool :=
  if ic then
    Py.eqc (Py.lower_char b) (Py.lower_char a)
    || existsb (Py.eqc (Py.lower_char b)) (fixes (Py.lower_char a))
  else Py.eqc a b.

Definition in_cset (cs : cset) (c : char) : bool :=
  match cs with
  | Any => true
  | Space => Py.is_space c
  | Not x => negb (chr_eq x c)
  | Range lo hi =>
      in_range lo hi c ||
      (ic && (in_range lo hi (Py.lower_char c) || in_range lo hi (Py.upper_char c)))
  end.

(** Consume the literal [p] at the head of [s]. *)
Fixpoint eat (p s : str) : option str :=
  match p, s with
  | [], _ => Some s
  | a :: p', b :: s' => if chr_eq a b then eat p' s' else None
  | _ :: _, [] => None
  end.

Section Cont.

Variable A : Type.

(** [cs*]: longest run first, giving characters back on failure. *)
Fixpoint greedy_star (cs : cset) (s : str) (k : str -> option A) : option A :=
  match s with
  | c :: s' =>
      if in_cset cs c then
        match greedy_star cs s' k with
        | Some x => Some x
        | None => k s
        end
      else k s
  | [] => k []
  end.

(** [cs*?]: shortest run first. *)
Fixpoint lazy_star (cs : cset) (s : str) (k : str -> option A) : option A :=
  match k s with
  | Some x => Some x
  | None =>
      match s with
      | c :: s' => if in_cset cs c then lazy_star cs s' k else None
      | [] => None
      end
  end.

(** Backtracking matcher in continuation-passing style; [g] is the current
    value of the capture group. *)
Fixpoint mt (r : re) (s : str) (g : option str)
    (k : str -> option str -> option A) : option A :=
  match r with
  | Lit p =>
      match eat p s with
      | Some s' => k s' g
      | None => None
      end
  | Star cs => greedy_star cs s (fun s' => k s' g)
  | Plus cs =>
      match s with
      | c :: s' => if in_cset cs c then greedy_star cs s' (fun s'' => k s'' g) else None
      | [] => None
      end
  | Lazy cs => lazy_star cs s (fun s' => k s' g)
  | Cat r1 r2 => mt r1 s g (fun s' g' => mt r2 s' g' k)
  | Alt r1 r2 =>
      match mt r1 s g k with
      | Some x => Some x
      | None => mt r2 s g k
      end
  | Grp r1 => mt r1 s g (fun s' _ => k s' (Some (firstn (length s - length s') s)))
  end.

End Cont.

(** [re.match] at the head of [s]: the group and the text left over. *)
Definition match_here (r : re) (s : str) : option (option str * str) :=
  mt r s None (fun s' g => Some (g, s')).

Definition shift (c : char) (m : rmatch) : rmatch :=
  MkMatch (c :: m_pre m) (m_text m) (m_group m) (m_post m).

(** [re.search]: the match at the leftmost position that has one. *)
Fixpoint search (r : re) (s : str) : option rmatch :=
  match match_here r s with
  | Some (g, rest) => Some (MkMatch [] (firstn (length s - length rest) s) g rest)
  | None =>
      match s with
      | [] => None
      | c :: s' => option_map (shift c) (search r s')
      end
  end.

(** Length of the match at the head of [s], when it is not empty.  No
    pattern of the source matches the empty string. *)
Definition match_len (r : re) (s : str) : option nat :=
  match match_here r s with
  | Some (_, rest) =>
      match length s - length rest with
      | 0 => None
      | S n => Some n
      end
  | None => None
  end.

(** [re.sub(r, '', s)]: [skip] counts the characters of the current match
    that are still to be dropped. *)
Fixpoint sub_aux (r : re) (skip : nat) (s : str) : str :=
  match s with
  | [] => []
  | c :: s' =>
      match skip with
      | S n => sub_aux r n s'
      | 0 =>
          match match_len r s with
          | Some n => sub_aux r n s'
          | None => c :: sub_aux r 0 s'
          end
      end
  end.

Definition sub (r : re) (s : str) : str := sub_aux r 0 s.

(** [re.findall(r, s)] for a pattern without groups. *)
Fixpoint findall_aux (r : re) (skip : nat) (s : str) : list str :=
  match s with
  | [] => []
  | c :: s' =>
      match skip with
      | S n => findall_aux r n s'
      | 0 =>
          match match_len r s with
          | Some n => firstn (S n) s :: findall_aux r n s'
          | None => findall_aux r 0 s'
          end
      end
  end.

Definition findall (r : re) (s : str) : list str := findall_aux r 0 s.

(** [re.split(r, s)] for a pattern without groups: the first piece of the
    result is the one under construction. *)
Fixpoint split_aux (r : re) (skip : nat) (s : str) : list str :=
  match s with
  | [] => [[]]
  | c :: s' =>
      match skip with
      | S n => split_aux r n s'
      | 0 =>
          match match_len r s with
          | Some n => [] :: split_aux r n s'
          | None => Py.cons_first c (split_aux r 0 s')
          end
      end
  end.

Definition split (r : re) (s : str) : list str := split_aux r 0 s.

End Matcher.

End Re.

(** ** The source's patterns *)

Import Re.

Notation "a @@ b" := (Cat a b) (at level 60, right associativity).

(** [(?:p1|p2|...)] over literal alternatives, tried in the order written. *)
Fixpoint alts (p : str) (ps : list str) : re :=
  match ps with
  | [] => Lit p
  | q :: ps' => Alt (Lit p) (alts q ps')
  end.

Definition gt : char := code ">".

(** [Here's|This widget|The widget|The design|This|These] *)
Definition lead_in_long : re :=
  alts (lit "Here's")
    [lit "This widget"; lit "The widget"; lit "The design"; lit "This"; lit "These"].

(** [Here's|This widget|The widget|The design] *)
Definition lead_in_short : re :=
  alts (lit "Here's") [lit "This widget"; lit "The widget"; lit "The design"].

(** [<!DOCTYPE[^>]*>] *)
Definition re_doctype : re := Lit (lit "<!DOCTYPE") @@ Star (Not gt) @@ Lit (lit ">").
(** [<html[^>]*>] *)
Definition re_html_open : re := Lit (lit "<html") @@ Star (Not gt) @@ Lit (lit ">").
(** [</html>] *)
Definition re_html_close : re := Lit (lit "</html>").
(** [<head[^>]*>(.*?)</head>] *)
Definition re_head : re :=
  Lit (lit "<head") @@ Star (Not gt) @@ Lit (lit ">") @@ Grp (Lazy Any) @@ Lit (lit "</head>").
(** [<style[^>]*>.*?</style>] *)
Definition re_style : re :=
  Lit (lit "<style") @@ Star (Not gt) @@ Lit (lit ">") @@ Lazy Any @@ Lit (lit "</style>").
(** [<body[^>]*>] *)
Definition re_body_open : re := Lit (lit "<body") @@ Star (Not gt) @@ Lit (lit ">").
(** [</body>] *)
Definition re_body_close : re := Lit (lit "</body>").
(** [<meta[^>]*>] *)
Definition re_meta : re := Lit (lit "<meta") @@ Star (Not gt) @@ Lit (lit ">").
(** [<title[^>]*>.*?</title>] *)
Definition re_title : re :=
  Lit (lit "<title") @@ Star (Not gt) @@ Lit (lit ">") @@ Lazy Any @@ Lit (lit "</title>").

(** [```html\s*(.*?)\s*```] *)
Definition re_fence_html : re :=
  Lit (lit "```html") @@ Star Space @@ Grp (Lazy Any) @@ Star Space @@ Lit (lit "```").
(** [\n\n\s*(?:Here's|This widget|The widget|The design|This|These)] *)
Definition re_break_lead_in : re :=
  Lit [Py.nl; Py.nl] @@ Star Space @@ lead_in_long.
(** [<html[^>]*>(.*?)</html>] *)
Definition re_html_doc : re :=
  Lit (lit "<html") @@ Star (Not gt) @@ Lit (lit ">") @@ Grp (Lazy Any) @@ Lit (lit "</html>").
(** [```[a-z]*\s*(.*?)\s*```] *)
Definition re_fence_any : re :=
  Lit (lit "```") @@ Star (Range (code "a") (code "z")) @@ Star Space @@ Grp (Lazy Any) @@
  Star Space @@ Lit (lit "```").
(** [(<[^>]+>.*?</[^>]+>)] *)
Definition re_tag_span : re :=
  Grp (Lit (lit "<") @@ Plus (Not gt) @@ Lit (lit ">") @@ Lazy Any @@
       Lit (lit "</") @@ Plus (Not gt) @@ Lit (lit ">")).
(** [\n\n(?:This|These|The|Here)] *)
Definition re_break_word : re :=
  Lit [Py.nl; Py.nl] @@ alts (lit "This") [lit "These"; lit "The"; lit "Here"].

Definition html_end_patterns : list re := [lead_in_long; re_break_word].

(** ** [clean_html] *)

Definition clean_html (html : str) : str :=
  let html := Re.sub true re_doctype html in
  let html := Re.sub true re_html_open html in
  let html := Re.sub true re_html_close html in
  let html :=
    match Re.search true re_head html with
    | Some head_style_match =>
        let head_content := group1 head_style_match in
        let style_tags := Re.findall true re_style head_content in
        let html := Re.sub true re_head html in
        match style_tags with
        | _ :: _ => Py.join_nl style_tags ++ Py.nl :: html
        | [] => html
        end
    | None => html
    end in
  let html := Re.sub true re_body_open html in
  let html := Re.sub true re_body_close html in
  let html := Re.sub true re_meta html in
  let html := Re.sub true re_title html in
  Py.strip html.

(** ** The extraction cascade *)

Definition is_empty (s : str) : bool :=
  match s with
  | [] => true
  | _ :: _ => false
  end.

(** Method 1: the value of [widget_html] when the fenced [html] block is
    found. *)
Definition span1 (response_text : str) : option str :=
  match Re.search true re_fence_html response_text with
  | Some markdown_match =>
      let widget_html := Py.strip (group1 markdown_match) in
      match Re.search true re_break_lead_in widget_html with
      | Some split_match => Some (Py.strip (m_pre split_match))
      | None => Some widget_html
      end
  | None => None
  end.

Definition method1 (response_text : str) : option str :=
  option_map clean_html (span1 response_text).

(** Method 2: content between the [html] tags. *)
Definition span2 (response_text : str) : result (option str) :=
  match Re.search true re_html_doc response_text with
  | Some html_match =>
      let widget_html := Py.strip (group1 html_match) in
      piece <- index0 (Re.split true lead_in_short widget_html) ;;
      Ok (Some (Py.strip piece))
  | None => Ok None
  end.

Definition method2 (response_text : str) : result (option str) :=
  w <- span2 response_text ;; Ok (option_map clean_html w).

(** The gate of method 3: the text has a [<] and names a [div] or a
    [style]. *)
Definition looks_like_html (widget_html : str) : bool :=
  Py.contains (lit "<") widget_html &&
  (Py.contains (lit "div") (Py.lower widget_html) ||
   Py.contains (lit "style") (Py.lower widget_html)).

(** Method 3: any fenced block that passes the gate. *)
Definition span3 (response_text : str) : result (option str) :=
  match Re.search false re_fence_any response_text with
  | Some code_block_match =>
      let widget_html := Py.strip (group1 code_block_match) in
      piece <- index0 (Re.split true lead_in_short widget_html) ;;
      let widget_html := Py.strip piece in
      if looks_like_html widget_html then Ok (Some widget_html) else Ok None
  | None => Ok None
  end.

Definition method3 (response_text : str) : result (option str) :=
  w <- span3 response_text ;; Ok (option_map clean_html w).

Definition html_line (line : str) : bool :=
  Py.contains (lit "<") line && Py.contains (lit ">") line &&
  negb (Py.startswith (lit "-") (Py.strip line)).

(** The loop of method 4 from line number [i] on: the number of the last
    line that looks like HTML, [last_html_line] when there is none. *)
Fixpoint scan_last (i last_html_line : nat) (lines : list str) : nat :=
  match lines with
  | [] => last_html_line
  | line :: rest =>
      scan_last (S i) (if html_line line then i else last_html_line) rest
  end.

(** Method 4: from a tag to a closing tag, cut after the last HTML line. *)
Definition span4 (response_text : str) : option str :=
  match Re.search false re_tag_span response_text with
  | Some html_content_match =>
      let widget_html := Py.strip (group1 html_content_match) in
      let lines := Py.split_nl widget_html in
      let last_html_line := scan_last 0 0 lines in
      Some (Py.strip (Py.join_nl (firstn (last_html_line + 1) lines)))
  | None => None
  end.

Definition method4 (response_text : str) : option str := span4 response_text.

(** The loop over [html_end_patterns]: cut at the first pattern found. *)
Fixpoint cut_at_first (patterns : list re) (widget_html : str) : str :=
  match patterns with
  | [] => widget_html
  | pattern :: rest =>
      match Re.search true pattern widget_html with
      | Some m => Py.strip (m_pre m)
      | None => cut_at_first rest widget_html
      end
  end.

(** Method 5: a response that starts with [<]. *)
Definition span5 (response_text : str) : option str :=
  if Py.startswith (lit "<") (Py.strip response_text) then
    let widget_html := cut_at_first html_end_patterns (Py.strip response_text) in
    if negb (is_empty widget_html) && Py.endswith (lit ">") (Py.rstrip widget_html)
    then Some widget_html
    else None
  else None.

Definition method5 (response_text : str) : option str :=
  option_map clean_html (span5 response_text).

Definition html_tokens : list str :=
  [lit "<div"; lit "</div"; lit "<style"; lit "</style"; lit "<span"; lit "<p"; lit "<h"].

(** The line filter of the fallback; [in_html] is the loop's flag, and the
    function stops at the [break]. *)
Fixpoint collect_lines (in_html : bool) (lines : list str) : list str :=
  match lines with
  | [] => []
  | line :: rest =>
      if Py.contains (lit "<") line then line :: collect_lines true rest
      else if in_html then
        if Py.contains (lit ">") line
           || Py.startswith (lit "<!--") (Py.strip line)
           || is_empty (Py.strip line)
        then line :: collect_lines in_html rest
        else if Py.any_in html_tokens (Py.lower line)
        then line :: collect_lines in_html rest
        else []
      else collect_lines in_html rest
  end.

(** Method 6 (the fallback): the HTML-looking lines. *)
Definition span6 (response_text : str) : option str :=
  if Py.contains (lit "<") response_text && Py.contains (lit ">") response_text then
    match collect_lines false (Py.split_nl response_text) with
    | [] => None
    | html_lines => Some (Py.strip (Py.join_nl html_lines))
    end
  else None.

Definition method6 (response_text : str) : option str :=
  option_map clean_html (span6 response_text).

(** [qq s] is [s] with each backquote replaced by a double quote. *)
Definition qq (s : string) : str :=
  map (fun c => if Py.eqc c (code "`") then 34%N else c) (lit s).

Arguments qq s%_string.

(** Method 7 (last resort): the response inside a padded [div]. *)
Definition last_resort (response_text : str) : str :=
  Py.nl :: qq "        <div style=`padding: 20px; font-family: system-ui;`>" ++
  Py.nl :: lit "            " ++ response_text ++
  Py.nl :: lit "        </div>" ++
  Py.nl :: lit "        ".

Definition or_else (m : result (option str)) (k : result str) : result str :=
  w <- m ;;
  match w with
  | Some widget_html => Ok widget_html
  | None => k
  end.

(** Lines 227-350: the response parsed into widget HTML. *)
Definition extract (response_text : str) : result str :=
  or_else (Ok (method1 response_text))
  (or_else (method2 response_text)
  (or_else (method3 response_text)
  (or_else (Ok (method4 response_text))
  (or_else (Ok (method5 response_text))
  (or_else (Ok (method6 response_text))
  (Ok (last_resort response_text))))))).

(** The strategy that returns, with the span it selected before any
    cleanup. *)
Definition selected (response_text : str) : result (nat * str) :=
  match span1 response_text with
  | Some w => Ok (1, w)
  | None =>
  w2 <- span2 response_text ;;
  match w2 with
  | Some w => Ok (2, w)
  | None =>
  w3 <- span3 response_text ;;
  match w3 with
  | Some w => Ok (3, w)
  | None =>
  match span4 response_text with
  | Some w => Ok (4, w)
  | None =>
  match span5 response_text with
  | Some w => Ok (5, w)
  | None =>
  match span6 response_text with
  | Some w => Ok (6, w)
  | None => Ok (7, response_text)
  end end end end end end.

(** ** The provider call and [generate_widget_html] *)

Definition models_to_try : list str :=
  [lit "claude-3-5-haiku-20241022";
   lit "claude-3-haiku-20240307";
   lit "claude-3-5-sonnet-20240620";
   lit "claude-3-sonnet-20240229"].

(** A provider message: the texts of its content blocks. *)
Definition message := list str.

(** The test of line 207 on [str(e)]. *)
Definition is_not_found (e : exn) : bool :=
  Py.contains (lit "404") (exn_str e)
  || Py.contains (lit "not_found") (exn_str e)
  || Py.contains (lit "not_found_error") (exn_str e).

(** [str(last_error)] *)
Definition str_of_last (last_error : option exn) : str :=
  match last_error with
  | Some e => exn_str e
  | None => lit "None"
  end.

(** U+26A0 and U+FE0F, the warning sign of the two error fragments. *)
Definition warning_sign : str := [9888; 65039]%N.

Definition config_error_widget : str :=
  Py.nl :: qq "        <div class=`widget-error` style=`padding: 20px; color: #d32f2f; background: #ffebee; border-radius: 8px;`>" ++
  Py.nl :: lit "            <h3>" ++ warning_sign ++ lit " Configuration Error</h3>" ++
  Py.nl :: lit "            <p>ANTHROPIC_API_KEY is not set. Please add it to your .env file.</p>" ++
  Py.nl :: qq "            <p>Get your API key from <a href=`https://console.anthropic.com` target=`_blank`>console.anthropic.com</a></p>" ++
  Py.nl :: lit "        </div>" ++
  Py.nl :: lit "        ".

Definition error_widget (e : exn) : str :=
  Py.nl :: qq "        <div class=`widget-error` style=`padding: 20px; color: #d32f2f; background: #ffebee; border-radius: 8px;`>" ++
  Py.nl :: lit "            <h3>" ++ warning_sign ++ lit " Generation Error</h3>" ++
  Py.nl :: lit "            <p>Failed to generate widget: " ++ exn_str e ++ lit "</p>" ++
  Py.nl :: lit "            <p>Please check your API key and network connection.</p>" ++
  Py.nl :: lit "        </div>" ++
  Py.nl :: lit "        ".

Section Provider.

(** [client.messages.create(model=model_name, ...)] on the prompt of the
    request: a message, or the exception it raises. *)
Variable create : str -> result message.

(** The loop of lines 193-211.  The result is [message] and [last_error]
    after the loop, or the exception raised out of it; the second component
    lists the models the provider was invoked with, in order. *)
Fixpoint try_models (models : list str) (last_error : option exn)
    : result (option message * option exn) * list str :=
  match models with
  | [] => (Ok (None, last_error), [])
  | model_name :: rest =>
      match create model_name with
      | Ok msg => (Ok (Some msg, last_error), [model_name])
      | Raise e =>
          if is_not_found e then
            let (r, calls) := try_models rest (Some e) in (r, model_name :: calls)
          else (Raise e, [model_name])
      end
  end.

Definition none_worked (last_error : option exn) : exn :=
  Exception (lit "None of the available models worked. Last error: " ++
             str_of_last last_error).

Definition call_anthropic_api : result str * list str :=
  let (r, calls) := try_models models_to_try None in
  (st <- r ;;
   match fst st with
   | None => Raise (none_worked (snd st))
   | Some msg => index0 msg
   end, calls).

(** [generate_widget_html] once the prompt is built: the returned widget and
    the provider invocations made. *)
Definition generate_widget_html (ANTHROPIC_API_KEY : str) : str * list str :=
  if is_empty ANTHROPIC_API_KEY then (config_error_widget, [])
  else
    let (r, calls) := call_anthropic_api in
    match (response_text <- r ;; extract response_text) with
    | Ok widget_html => (widget_html, calls)
    | Raise e => (error_widget e, calls)
    end.

End Provider.

(** ** The prompt of [generate_widget_html] (lines 39-175) *)

Unset Implicit Arguments.

(** Lines 47-49 and 82-84: the prompt of a user request, up to the request. *)
Definition user_head : str :=
  Py.join_nl
    [lit "Generate a complete, production-ready widget based on the following user request.";
     [];
     lit "USER REQUEST:";
     []].

(** Lines 50-79: after the request, when the styles are to be preserved. *)
Definition user_style_tail : str :=
  Py.join_nl
    [[];
     [];
     lit "CRITICAL INSTRUCTIONS:";
     lit "- Follow the style preservation requirements EXACTLY as specified above";
     lit "- If CSS styles are provided in the request, USE THEM EXACTLY or create very similar styles";
     lit "- Preserve colors, fonts, spacing, layout, and all visual properties";
     lit "- Only update the content/data, NOT the styling";
     lit "- Keep the same visual appearance and design aesthetic";
     [];
     lit "REQUIREMENTS:";
     lit "- The widget should be visually appealing and fulfill the user's request";
     lit "- Use modern CSS (flexbox/grid, responsive design)";
     lit "- Ensure the widget is self-contained (all styles inline or in a <style> tag)";
     lit "- Make it responsive and accessible";
     lit "- Use semantic HTML";
     lit "- The widget should be ready to inject into a dashboard";
     lit "- CRITICAL: All CSS must be scoped to the widget content only - use class names that won't conflict with dashboard styles";
     lit "- Avoid global styles, body/html selectors, or styles that affect elements outside the widget";
     lit "- Use inline styles or scoped <style> tags within the widget HTML";
     lit "- If the request requires real data (like weather, schedules, etc.), generate the widget with realistic/sample data that matches the request";
     lit "- Make the widget functional and complete";
     [];
     lit "IMPORTANT: ";
     lit "- Return COMPLETE, FUNCTIONAL HTML code with ALL content elements (divs, spans, text, etc.)";
     lit "- Include the full HTML structure with styles AND the actual content";
     lit "- Do not include any explanatory text, descriptions, or notes before or after the HTML";
     lit "- The HTML must be complete and display actual content";
     lit "- PRESERVE THE STYLES AS SPECIFIED IN THE USER REQUEST";
     [];
     lit "Return the complete widget HTML code now:"].

(** Lines 85-106: after the request, otherwise. *)
Definition user_tail : str :=
  Py.join_nl
    [[];
     [];
     lit "REQUIREMENTS:";
     lit "- The widget should be visually appealing and fulfill the user's request";
     lit "- Use modern CSS (flexbox/grid, responsive design)";
     lit "- Ensure the widget is self-contained (all styles inline or in a <style> tag)";
     lit "- Make it responsive and accessible";
     lit "- Use semantic HTML";
     lit "- The widget should be ready to inject into a dashboard";
     lit "- CRITICAL: All CSS must be scoped to the widget content only - use class names that won't conflict with dashboard styles";
     lit "- Avoid global styles, body/html selectors, or styles that affect elements outside the widget";
     lit "- Use inline styles or scoped <style> tags within the widget HTML";
     lit "- If the request requires real data (like weather, schedules, etc.), generate the widget with realistic/sample data that matches the request";
     lit "- Make the widget functional and complete";
     [];
     lit "IMPORTANT: ";
     lit "- Return COMPLETE, FUNCTIONAL HTML code with ALL content elements (divs, spans, text, etc.)";
     lit "- Include the full HTML structure with styles AND the actual content";
     lit "- Do not include any explanatory text, descriptions, or notes before or after the HTML";
     lit "- The HTML must be complete and display actual content";
     [];
     lit "Return the complete widget HTML code now:"].

(** Lines 114-116 and 150-152: the prompt of an app, up to the data. *)
Definition app_head : str :=
  Py.join_nl
    [lit "Generate a complete, production-ready widget based on the following data and rendering instructions.";
     [];
     lit "DATA TO RENDER:";
     []].

(** Lines 117-119 and 153-155: between the data and the instructions. *)
Definition app_mid : str :=
  Py.join_nl
    [[];
     [];
     lit "RENDERING INSTRUCTIONS:";
     []].

(** Lines 120-147: after the instructions, when the styles are to be preserved. *)
Definition app_style_tail : str :=
  Py.join_nl
    [[];
     [];
     lit "CRITICAL INSTRUCTIONS:";
     lit "- Follow the style preservation requirements EXACTLY as specified above";
     lit "- If CSS styles are provided in the rendering instructions, USE THEM EXACTLY or create very similar styles";
     lit "- Preserve colors, fonts, spacing, layout, and all visual properties";
     lit "- Only update the content/data, NOT the styling";
     lit "- Keep the same visual appearance and design aesthetic";
     [];
     lit "REQUIREMENTS:";
     lit "- The widget should be visually appealing and match the rendering instructions";
     lit "- Use modern CSS (flexbox/grid, responsive design)";
     lit "- Ensure the widget is self-contained (all styles inline or in a <style> tag)";
     lit "- Make it responsive and accessible";
     lit "- Use semantic HTML";
     lit "- The widget should be ready to inject into a dashboard grid";
     lit "- CRITICAL: All CSS must be scoped to the widget content only - use class names that won't conflict with dashboard styles";
     lit "- Avoid global styles, body/html selectors, or styles that affect elements outside the widget";
     lit "- Use inline styles or scoped <style> tags within the widget HTML";
     [];
     lit "IMPORTANT: ";
     lit "- Return COMPLETE, FUNCTIONAL HTML code with ALL content elements (divs, spans, text, etc.)";
     lit "- Include the full HTML structure with styles AND the actual content displaying the data";
     lit "- Do not include any explanatory text, descriptions, or notes before or after the HTML";
     lit "- The HTML must display the actual data values, not just styles";
     lit "- PRESERVE THE STYLES AS SPECIFIED IN THE RENDERING INSTRUCTIONS";
     [];
     lit "Return the complete widget HTML code now:"].

(** Lines 156-175: after the instructions, otherwise. *)
Definition app_tail : str :=
  Py.join_nl
    [[];
     [];
     lit "REQUIREMENTS:";
     lit "- The widget should be visually appealing and match the rendering instructions";
     lit "- Use modern CSS (flexbox/grid, responsive design)";
     lit "- Ensure the widget is self-contained (all styles inline or in a <style> tag)";
     lit "- Make it responsive and accessible";
     lit "- Use semantic HTML";
     lit "- The widget should be ready to inject into a dashboard grid";
     lit "- CRITICAL: All CSS must be scoped to the widget content only - use class names that won't conflict with dashboard styles";
     lit "- Avoid global styles, body/html selectors, or styles that affect elements outside the widget";
     lit "- Use inline styles or scoped <style> tags within the widget HTML";
     [];
     lit "IMPORTANT: ";
     lit "- Return COMPLETE, FUNCTIONAL HTML code with ALL content elements (divs, spans, text, etc.)";
     lit "- Include the full HTML structure with styles AND the actual content displaying the data";
     lit "- Do not include any explanatory text, descriptions, or notes before or after the HTML";
     lit "- The HTML must display the actual data values, not just styles";
     [];
     lit "Return the complete widget HTML code now:"].

(** Lines 43 and 110. *)
Definition has_style_preservation (render_prompt : str) : bool :=
  Py.contains (lit "CRITICAL STYLE PRESERVATION") render_prompt
  || Py.contains (lit "CURRENT WIDGET STYLES") render_prompt.

Section Prompt.

(** The payload; [not data] and [json.dumps(data, indent=2)] on it. *)
Variable payload : Type.
Variable is_falsy : payload -> bool.
Variable json_dumps : payload -> result str.

Definition build_prompt (data : payload) (render_prompt : str)
    (is_user_prompt : bool) : result str :=
  if is_user_prompt || is_falsy data then
    if has_style_preservation render_prompt
    then Ok (user_head ++ render_prompt ++ user_style_tail)
    else Ok (user_head ++ render_prompt ++ user_tail)
  else
    if has_style_preservation render_prompt
    then dumped <- json_dumps data ;;
         Ok (app_head ++ dumped ++ app_mid ++ render_prompt ++ app_style_tail)
    else dumped <- json_dumps data ;;
         Ok (app_head ++ dumped ++ app_mid ++ render_prompt ++ app_tail).

End Prompt.

(** ** The refresh prompt of [main.py] (lines 482-505 and 649-673) *)

(** [<style[^>]*>(.*?)</style>] *)
Definition re_style_content : re :=
  Lit (lit "<style") @@ Star (Not gt) @@ Lit (lit ">") @@ Grp (Lazy Any) @@
  Lit (lit "</style>").

(** [re.findall(r, s)] for a pattern with one group: the captured texts. *)
Fixpoint findall_groups_aux (ic : bool) (r : re) (skip : nat) (s : str)
    : list str :=
  match s with
  | [] => []
  | c :: s' =>
      match skip with
      | S n => findall_groups_aux ic r n s'
      | 0 =>
          match match_here ic r s with
          | Some (g, rest) =>
              match length s - length rest with
              | 0 => findall_groups_aux ic r 0 s'
              | S n =>
                  match g with
                  | Some c1 => c1
                  | None => []
                  end :: findall_groups_aux ic r n s'
              end
          | None => findall_groups_aux ic r 0 s'
          end
      end
  end.

Definition findall_groups (ic : bool) (r : re) (s : str) : list str :=
  findall_groups_aux ic r 0 s.

(** Lines 489-495: the instruction before any style is quoted. *)
Definition preservation_rules : str :=
  let style_instruction :=
    Py.nl :: Py.nl :: lit "CRITICAL STYLE PRESERVATION REQUIREMENTS:" ++ [Py.nl] in
  let style_instruction := style_instruction ++
    lit "You MUST preserve the EXACT visual appearance and styling of the current widget." ++ [Py.nl] in
  let style_instruction := style_instruction ++
    lit "- Keep the SAME colors, fonts, spacing, borders, shadows, and all visual properties" ++ [Py.nl] in
  let style_instruction := style_instruction ++
    lit "- Use the SAME CSS classes and styling patterns" ++ [Py.nl] in
  let style_instruction := style_instruction ++
    lit "- Maintain the SAME layout structure and component arrangement" ++ [Py.nl] in
  let style_instruction := style_instruction ++
    lit "- Preserve the SAME design aesthetic and visual hierarchy" ++ [Py.nl] in
  style_instruction ++
    lit "- DO NOT change colors, sizes, or styling unless absolutely necessary" ++ [Py.nl].

(** Lines 489-503. *)
Definition style_instruction (style_tags : list str) : str :=
  let style_instruction := preservation_rules in
  match style_tags with
  | [] => style_instruction
  | _ :: _ =>
      let style_instruction := style_instruction ++
        Py.nl :: lit "CURRENT WIDGET STYLES (preserve these):" ++ [Py.nl] in
      let style_instruction := style_instruction ++ lit "```css" ++ [Py.nl] in
      let style_instruction :=
        fold_left
          (fun style_instruction style_content =>
             style_instruction ++ Py.strip style_content ++ [Py.nl])
          style_tags style_instruction in
      let style_instruction := style_instruction ++ lit "```" ++ [Py.nl] in
      style_instruction ++
        Py.nl :: lit "IMPORTANT: Use these exact styles or very similar ones. Match the color scheme, typography, spacing, and visual design." ++ [Py.nl]
  end.

(** Lines 483-505: the prompt of a refresh, from the widget's stored prompt
    and HTML. *)
Definition enhanced_prompt (original_prompt current_html : str) : str :=
  let style_tags := findall_groups true re_style_content current_html in
  original_prompt ++ style_instruction style_tags.

(** ** The database name of [database.py] (lines 7-12) *)

(** [s.lstrip(chars)] *)
Fixpoint lstrip_chars (chars s : str) : str :=
  match s with
  | c :: s' => if existsb (Py.eqc c) chars then lstrip_chars chars s' else s
  | [] => []
  end.

(** [s.rstrip(chars)] *)
Definition rstrip_chars (chars s : str) : str :=
  rev (lstrip_chars chars (rev s)).

(** [config.py], line 47: [mongodb_uri.rstrip("/")]. *)
Definition mongodb_uri_normalized (mongodb_uri : str) : str :=
  rstrip_chars (lit "/") mongodb_uri.

Definition slash : char := code "/".
Definition qmark : char := code "?".

(** [mongodb(\+srv)?://[^/]+/([^?]+)].  The optional group, whose capture is
    not used, is written as the alternation of [+srv] and nothing; [Grp] is
    the group the code reads with [group(2)]. *)
Definition re_db_uri : re :=
  Lit (lit "mongodb") @@ Alt (Lit (lit "+srv")) (Lit []) @@ Lit (lit "://") @@
  Plus (Not slash) @@ Lit (lit "/") @@ Grp (Plus (Not qmark)).

(** Lines 7-12: the name in the URI when it has one, the configured name
    otherwise. *)
Definition db_name (MONGODB_URI MONGODB_DB_NAME : str) : str :=
  match Re.search false re_db_uri MONGODB_URI with
  | Some m => group1 m
  | None => MONGODB_DB_NAME
  end.

(** ** What a pattern matches *)

Unset Implicit Arguments.

Section Lang.

Variable ic : bool.

(** The literal [p] spells [u], up to case under IGNORECASE. *)
Fixpoint lit_eq (p u : str) : bool :=
  match p, u with
  | [], [] => true
  | a :: p', b :: u' => chr_eq ic a b && lit_eq p' u'
  | _, _ => false
  end.

(** [lang r u g g']: the pattern [r] matches exactly the text [u], taking the
    capture group from [g] to [g']. *)
Fixpoint lang (r : re) (u : str) (g g' : option str) : Prop :=
  match r with
  | Lit p => lit_eq p u = true /\ g' = g
  | Star cs => forallb (in_cset ic cs) u = true /\ g' = g
  | Plus cs => u <> [] /\ forallb (in_cset ic cs) u = true /\ g' = g
  | Lazy cs => forallb (in_cset ic cs) u = true /\ g' = g
  | Cat r1 r2 =>
      exists u1 u2 gm, u = u1 ++ u2 /\ lang r1 u1 g gm /\ lang r2 u2 gm g'
  | Alt r1 r2 => lang r1 u g g' \/ lang r2 u g g'
  | Grp r1 => exists g1, lang r1 u g g1 /\ g' = Some u
  end.

(** [r] has an occurrence in [s]. *)
Definition occurs (r : re) (s : str) : Prop :=
  exists a u b g, s = a ++ u ++ b /\ lang r u None g.

(** A pattern that never matches the empty text. *)
Definition nonempty_pat (r : re) : Prop :=
  forall (u : str) (g : option str), lang r u None g -> u <> [].

End Lang.

(** ** Vocabulary of the statements *)

(** [u] is the text [p], up to case. *)
Definition spells (p u : str) : Prop := lit_eq true p u = true.

(** [ws] is white space only. *)
Definition blank (ws : str) : Prop := forallb Py.is_space ws = true.

Definition long_phrases : list str :=
  [lit "Here's"; lit "This widget"; lit "The widget"; lit "The design";
   lit "This"; lit "These"].

Definition short_phrases : list str :=
  [lit "Here's"; lit "This widget"; lit "The widget"; lit "The design"].

(** [u] is one of the phrases, up to case. *)
Definition lead_in (phrases : list str) (u : str) : Prop :=
  exists q, In q phrases /\ spells q u.

(** What method 1 makes of the content of a fenced block. *)
Definition fence_result (content : str) : str :=
  clean_html
    match search true re_break_lead_in (Py.strip content) with
    | Some split_match => Py.strip (m_pre split_match)
    | None => Py.strip content
    end.

Definition fence : str := lit "```".

(** The provider fails on [model] with a not-found error. *)
Definition fails_not_found (create : str -> result message) (model : str) : Prop :=
  exists e, create model = Raise e /\ is_not_found e = true.

(** [p] is a contiguous piece of [s]. *)
Definition infix (p s : str) : Prop := exists a b, s = a ++ p ++ b.

Definition lt : char := code "<".

(** Every text the pattern matches starts with [<]. *)
Definition starts_lt (ic : bool) (r : re) : Prop :=
  forall (u : str) (g g' : option str),
    lang ic r u g g' -> exists u', u = lt :: u'.

(** A line of commentary: no [<], no [>], and not blank. *)
Definition plain_line (line : str) : Prop :=
  Py.contains (lit "<") line = false /\ Py.contains (lit ">") line = false /\
  Py.strip line <> [].

(** A line the fallback may keep: it has a [<] or a [>], or it is blank. *)
Definition markup_line (line : str) : Prop :=
  Py.contains (lit "<") line = true \/ Py.contains (lit ">") line = true \/
  Py.strip line = [].


(** Lines 346-350: what the last resort puts before and after the
    response. *)
Definition wrapper_open : str :=
  Py.nl :: qq "        <div style=`padding: 20px; font-family: system-ui;`>" ++
  Py.nl :: lit "            ".

Definition wrapper_close : str :=
  Py.nl :: lit "        </div>" ++ Py.nl :: lit "        ".

(** The patterns whose [group(1)] the extraction reads, each with its
    IGNORECASE flag. *)
Definition group_patterns : list (bool * re) :=
  [(true, re_fence_html); (true, re_html_doc); (false, re_fence_any);
   (false, re_tag_span); (true, re_head)].

(** Every way through the pattern goes through its group. *)
Fixpoint sets_group (r : re) : bool :=
  match r with
  | Grp _ => true
  | Cat r1 r2 => sets_group r1 || sets_group r2
  | Alt r1 r2 => sets_group r1 && sets_group r2
  | _ => false
  end.

(** ** Responses used as examples *)

Definition plain_text : str := lit "just some text".

Definition body_fragment : str := lit "<body><p>x</p></body>".

Definition meta_only : str := lit "<meta a>".

Definition two_elements : str :=
  lit "<div>a</div>" ++ Py.nl :: lit "<p>b</p>".

Definition whole_document : str :=
  lit "<!DOCTYPE html><html><head><style>.a{color:red}</style></head><body><div>hi</div></body></html>".

Definition cleaned_document : str :=
  lit "<style>.a{color:red}</style>" ++ Py.nl :: lit "<div>hi</div>".

Definition not_found_error : exn :=
  Exception (lit "Error code: 404 - not_found_error: model").

Definition third_only (model_name : str) : result message :=
  if list_eq_dec N.eq_dec model_name (lit "claude-3-5-sonnet-20240620")
  then Ok [lit "<div>third</div>"]
  else Raise not_found_error.

Definition mixed_response : str :=
  lit "text ```html <b>x</b> ``` and <html><i>y</i></html>".

Definition commented_fence : str :=
  lit "```html" ++ Py.nl :: lit "<div>X</div>" ++ Py.nl :: Py.nl ::
  lit "Here's the widget you wanted" ++ Py.nl :: lit "```".

Definition spaced_fence : str :=
  lit "```html" ++ Py.nl :: lit "<div>X</div>" ++ Py.nl :: code " " :: Py.nl ::
  lit "Here's the widget you wanted" ++ Py.nl :: lit "```".

Definition this_document : str := lit "<html><p>This is fine</p></html>".

Ltac split_andb :=
  repeat match goal with
         | H : _ && _ = true |- _ => apply andb_prop in H as [? H]
         end.

(** ** The matcher against the patterns' meaning *)

Section MatcherFacts.

Variable ic : bool.

Lemma eat_sound (p s s' : str) :
  eat ic p s = Some s' -> exists u, s = u ++ s' /\ lit_eq ic p u = true.
Proof.
  revert s. induction p as [|a p IH]; intros s H; simpl in H.
  - inversion H; subst. now exists [].
  - destruct s as [|b s]; [discriminate|].
    destruct (chr_eq ic a b) eqn:E; [|discriminate].
    destruct (IH _ H) as (u & -> & Hu).
    exists (b :: u). simpl. now rewrite E, Hu.
Qed.

Lemma eat_complete (p u s' : str) :
  lit_eq ic p u = true -> eat ic p (u ++ s') = Some s'.
Proof.
  revert u. induction p as [|a p IH]; intros [|b u] H; simpl in *;
    try discriminate; auto.
  apply andb_prop in H as [E H]. rewrite E. auto.
Qed.

Lemma lit_eq_length (p u : str) : lit_eq ic p u = true -> length u = length p.
Proof.
  revert u. induction p as [|a p IH]; intros [|b u] H; simpl in *;
    try discriminate; auto.
  apply andb_prop in H as [_ H]. f_equal. auto.
Qed.

Section K.

Variable A : Type.

Lemma greedy_sound (cs : cset) (s : str) (k : str -> option A) (x : A) :
  greedy_star ic cs s k = Some x ->
  exists u s', s = u ++ s' /\ forallb (in_cset ic cs) u = true /\ k s' = Some x.
Proof.
  induction s as [|c s IH]; simpl; intros H.
  - now exists [], [].
  - destruct (in_cset ic cs c) eqn:E.
    + destruct (greedy_star ic cs s k) as [y|] eqn:G.
      * inversion H; subst y.
        destruct (IH eq_refl) as (u & s' & -> & Hu & Hk).
        exists (c :: u), s'. simpl. now rewrite E, Hu.
      * now exists [], (c :: s).
    + now exists [], (c :: s).
Qed.

Lemma greedy_complete (cs : cset) (u s' : str) (k : str -> option A) (x : A) :
  forallb (in_cset ic cs) u = true -> k s' = Some x ->
  exists y, greedy_star ic cs (u ++ s') k = Some y.
Proof.
  intros Hu Hk. induction u as [|c u IH]; simpl in *.
  - destruct s' as [|c s']; simpl; [eauto|].
    destruct (in_cset ic cs c); [|eauto].
    destruct (greedy_star ic cs s' k); eauto.
  - apply andb_prop in Hu as [E Hu]. rewrite E.
    destruct (IH Hu) as (y & ->). eauto.
Qed.

Lemma lazy_sound (cs : cset) (s : str) (k : str -> option A) (x : A) :
  lazy_star ic cs s k = Some x ->
  exists u s', s = u ++ s' /\ forallb (in_cset ic cs) u = true /\ k s' = Some x.
Proof.
  induction s as [|c s IH]; simpl; intros H.
  - destruct (k []) eqn:K; [|discriminate]. inversion H; subst.
    now exists [], [].
  - destruct (k (c :: s)) eqn:K.
    + inversion H; subst. now exists [], (c :: s).
    + destruct (in_cset ic cs c) eqn:E; [|discriminate].
      destruct (IH H) as (u & s' & -> & Hu & Hk).
      exists (c :: u), s'. simpl. now rewrite E, Hu.
Qed.

Lemma lazy_complete (cs : cset) (u s' : str) (k : str -> option A) (x : A) :
  forallb (in_cset ic cs) u = true -> k s' = Some x ->
  exists y, lazy_star ic cs (u ++ s') k = Some y.
Proof.
  intros Hu Hk. induction u as [|c u IH]; simpl in *.
  - destruct s' as [|c s']; simpl; rewrite Hk; eauto.
  - apply andb_prop in Hu as [E Hu]. rewrite E.
    destruct (k (c :: u ++ s')); [eauto|]. auto.
Qed.

End K.

Lemma firstn_consumed (u s' : str) :
  firstn (length (u ++ s') - length s') (u ++ s') = u.
Proof.
  rewrite length_app, Nat.add_sub. rewrite firstn_app, Nat.sub_diag, firstn_all.
  simpl. apply app_nil_r.
Qed.

Lemma mt_sound (r : re) :
  forall (A : Type) (s : str) (g : option str)
         (k : str -> option str -> option A) (x : A),
  mt ic r s g k = Some x ->
  exists u s' g', s = u ++ s' /\ lang ic r u g g' /\ k s' g' = Some x.
Proof.
  induction r as [p|cs|cs|cs|r1 IH1 r2 IH2|r1 IH1 r2 IH2|r1 IH1];
    intros A s g k x H; simpl in H.
  - destruct (eat ic p s) as [s'|] eqn:E; [|discriminate].
    destruct (eat_sound _ _ _ E) as (u & -> & Hu).
    exists u, s', g. simpl. auto.
  - destruct (greedy_sound _ _ _ _ _ H) as (u & s' & -> & Hu & Hk).
    exists u, s', g. simpl. auto.
  - destruct s as [|c s]; [discriminate|].
    destruct (in_cset ic cs c) eqn:E; [|discriminate].
    destruct (greedy_sound _ _ _ _ _ H) as (u & s' & -> & Hu & Hk).
    exists (c :: u), s', g. simpl. rewrite E, Hu. repeat split; auto.
    discriminate.
  - destruct (lazy_sound _ _ _ _ _ H) as (u & s' & -> & Hu & Hk).
    exists u, s', g. simpl. auto.
  - destruct (IH1 _ _ _ _ _ H) as (u1 & s1 & g1 & -> & L1 & H2).
    destruct (IH2 _ _ _ _ _ H2) as (u2 & s2 & g2 & -> & L2 & Hk).
    exists (u1 ++ u2), s2, g2. rewrite app_assoc. repeat split; auto.
    simpl. eauto 6.
  - destruct (mt ic r1 s g k) as [y|] eqn:E.
    + inversion H; subst y.
      destruct (IH1 _ _ _ _ _ E) as (u & s' & g' & -> & L & Hk).
      exists u, s', g'. simpl. auto.
    + destruct (IH2 _ _ _ _ _ H) as (u & s' & g' & -> & L & Hk).
      exists u, s', g'. simpl. auto.
  - destruct (IH1 _ _ _ _ _ H) as (u & s' & g' & -> & L & Hk).
    rewrite firstn_consumed in Hk.
    exists u, s', (Some u). simpl. eauto.
Qed.

Lemma mt_complete (r : re) :
  forall (A : Type) (u s' : str) (g g' : option str)
         (k : str -> option str -> option A) (x : A),
  lang ic r u g g' -> k s' g' = Some x ->
  exists y, mt ic r (u ++ s') g k = Some y.
Proof.
  induction r as [p|cs|cs|cs|r1 IH1 r2 IH2|r1 IH1 r2 IH2|r1 IH1];
    intros A u s' g g' k x L Hk; simpl in L |- *.
  - destruct L as [L ->]. rewrite (eat_complete _ _ _ L). eauto.
  - destruct L as [L ->].
    apply (greedy_complete _ cs u s' (fun s'' => k s'' g) x L Hk).
  - destruct L as (Hne & L & ->). destruct u as [|c u]; [congruence|].
    simpl in *. apply andb_prop in L as [E L]. rewrite E.
    apply (greedy_complete _ cs u s' (fun s'' => k s'' g) x L Hk).
  - destruct L as [L ->].
    apply (lazy_complete _ cs u s' (fun s'' => k s'' g) x L Hk).
  - destruct L as (u1 & u2 & gm & -> & L1 & L2).
    destruct (IH2 _ _ _ _ _ _ _ L2 Hk) as (y & Hy).
    rewrite <- app_assoc.
    apply (IH1 _ u1 (u2 ++ s') g gm _ y L1 Hy).
  - destruct L as [L|L].
    + destruct (IH1 _ _ _ _ _ _ _ L Hk) as (y & ->). eauto.
    + destruct (mt ic r1 (u ++ s') g k); [eauto|].
      apply (IH2 _ _ _ _ _ _ _ L Hk).
  - destruct L as (g1 & L & ->).
    apply (IH1 _ u s' g g1 _ x L). now rewrite firstn_consumed.
Qed.

Lemma match_here_sound (r : re) (s rest : str) (g : option str) :
  match_here ic r s = Some (g, rest) ->
  exists u, s = u ++ rest /\ lang ic r u None g.
Proof.
  unfold match_here. intros H.
  destruct (mt_sound _ _ _ _ _ _ H) as (u & s' & g' & -> & L & Hk).
  inversion Hk; subst. eauto.
Qed.

Lemma match_here_complete (r : re) (u s' : str) (g : option str) :
  lang ic r u None g -> exists res, match_here ic r (u ++ s') = Some res.
Proof.
  intros L. unfold match_here.
  apply (mt_complete r _ u s' None g (fun s'' g'' => Some (g'', s'')) _ L eq_refl).
Qed.

Lemma consumed_eq (s u rest : str) :
  s = u ++ rest -> firstn (length s - length rest) s = u.
Proof. intros ->. apply firstn_consumed. Qed.

Lemma search_eq (r : re) (s : str) :
  search ic r s =
  match match_here ic r s with
  | Some (g, rest) => Some (MkMatch [] (firstn (length s - length rest) s) g rest)
  | None =>
      match s with
      | [] => None
      | c :: s' => option_map (shift c) (search ic r s')
      end
  end.
Proof. destruct s; reflexivity. Qed.

Lemma search_sound (r : re) (s : str) (m : rmatch) :
  search ic r s = Some m ->
  s = m_pre m ++ m_text m ++ m_post m /\ lang ic r (m_text m) None (m_group m).
Proof.
  revert m. induction s as [|c s IH]; intros m H; rewrite search_eq in H;
    destruct (match_here ic r _) as [[g rest]|] eqn:E.
  - destruct (match_here_sound _ _ _ _ E) as (u & Hs & L).
    symmetry in Hs. apply app_eq_nil in Hs as [-> ->].
    inversion H; subst m. simpl. auto.
  - discriminate.
  - destruct (match_here_sound _ _ _ _ E) as (u & Hs & L).
    rewrite (consumed_eq _ _ _ Hs) in H.
    inversion H; subst m. simpl. auto.
  - destruct (search ic r s) as [m'|] eqn:S; [|discriminate].
    inversion H; subst m; simpl.
    destruct (IH _ eq_refl) as [Hs L]. split; [congruence|auto].
Qed.

Lemma search_leftmost (r : re) (s : str) :
  forall (a u b : str) (g : option str),
  s = a ++ u ++ b -> lang ic r u None g ->
  exists m, search ic r s = Some m /\ length (m_pre m) <= length a.
Proof.
  induction s as [|c s IH]; intros a u b g Hs L; rewrite search_eq;
    destruct (match_here ic r _) as [[g' rest]|] eqn:E.
  1, 3: eexists; split; [reflexivity|]; simpl; lia.
  - destruct a; [|discriminate]. simpl in Hs.
    destruct (match_here_complete r _ b _ L) as (res & E').
    rewrite <- Hs in E'. congruence.
  - destruct a as [|c' a].
    + simpl in Hs. destruct (match_here_complete r _ b _ L) as (res & E').
      rewrite <- Hs in E'. congruence.
    + inversion Hs; subst.
      destruct (IH _ _ _ _ eq_refl L) as (m & -> & Hm).
      eexists; split; [reflexivity|]. simpl; lia.
Qed.

Lemma search_none (r : re) (s : str) :
  search ic r s = None -> ~ occurs ic r s.
Proof.
  intros H (a & u & b & g & Hs & L).
  destruct (search_leftmost r _ _ _ _ _ Hs L) as (m & Hm & _). congruence.
Qed.

Lemma split_aux_nonempty (r : re) (s : str) :
  forall skip, split_aux ic r skip s <> [].
Proof.
  induction s as [|c s IH]; intros skip; simpl; [discriminate|].
  destruct skip as [|n]; [|apply IH].
  destruct (match_len ic r (c :: s)); [discriminate|].
  destruct (split_aux ic r 0 s); discriminate.
Qed.

(** [re.split(r, s)[0]] never raises. *)
Lemma split_index0 (r : re) (s : str) :
  exists piece, index0 (Re.split ic r s) = Ok piece.
Proof.
  unfold Re.split. destruct (split_aux ic r 0 s) eqn:E.
  - now apply split_aux_nonempty in E.
  - simpl. eauto.
Qed.

(** For such a pattern, [re.split(r, s)[0]] is the text before the leftmost
    match, and all of [s] when there is none. *)
Lemma split_head (r : re) (s : str) :
  nonempty_pat ic r ->
  index0 (Re.split ic r s) =
  Ok (match search ic r s with Some m => m_pre m | None => s end).
Proof.
  intros Hne. unfold Re.split.
  induction s as [|c s IH]; rewrite search_eq.
  - destruct (match_here ic r []) as [[g rest]|] eqn:E; [|reflexivity].
    destruct (match_here_sound _ _ _ _ E) as (u & Hs & L).
    symmetry in Hs. apply app_eq_nil in Hs as [-> _]. now apply Hne in L.
  - cbn [split_aux]. unfold match_len.
    destruct (match_here ic r (c :: s)) as [[g rest]|] eqn:E.
    + destruct (match_here_sound _ _ _ _ E) as (u & Hs & L).
      rewrite (consumed_eq _ _ _ Hs).
      destruct u as [|c' u]; [now apply Hne in L|].
      replace (length (c :: s) - length rest) with (S (length u))
        by (rewrite Hs, length_app; cbn [length]; lia).
      reflexivity.
    + destruct (split_aux ic r 0 s) as [|h tl] eqn:S;
        [now apply split_aux_nonempty in S|].
      simpl in IH. inversion IH as [Hh].
      destruct (search ic r s) as [m|]; reflexivity.
Qed.

End MatcherFacts.

(** The matcher on small inputs, as the [re] module answers them. *)

Example search_stops_early :
  option_map m_text (search false re_tag_span (lit "<a>x</a><b>y</b>")) =
  Some (lit "<a>x</a>").
Proof. reflexivity. Qed.

Example sub_removes_each :
  Re.sub true re_meta (lit "a<meta x>b<META y>c") = lit "abc".
Proof. reflexivity. Qed.

Example split_pieces :
  Re.split true lead_in_short (lit "a Here's b the design c") =
  [lit "a "; lit " b "; lit " c"].
Proof. reflexivity. Qed.

Example findall_styles :
  Re.findall true re_style (lit "<style>a</style><x><STYLE type=t>b</style>") =
  [lit "<style>a</style>"; lit "<STYLE type=t>b</style>"].
Proof. reflexivity. Qed.

(** ** The cascade *)

Lemma span2_ok (response_text : str) :
  exists w, span2 response_text = Ok w.
Proof.
  unfold span2. destruct (search true re_html_doc response_text); [|eauto].
  destruct (split_index0 true lead_in_short (Py.strip (group1 r))) as (piece & ->).
  simpl. eauto.
Qed.

Lemma span3_ok (response_text : str) :
  exists w, span3 response_text = Ok w.
Proof.
  unfold span3. destruct (search false re_fence_any response_text); [|eauto].
  destruct (split_index0 true lead_in_short (Py.strip (group1 r))) as (piece & ->).
  simpl. destruct (looks_like_html _); eauto.
Qed.

Lemma method2_ok (response_text : str) :
  exists w, method2 response_text = Ok w.
Proof.
  unfold method2. destruct (span2_ok response_text) as (w & ->). simpl. eauto.
Qed.

Lemma method3_ok (response_text : str) :
  exists w, method3 response_text = Ok w.
Proof.
  unfold method3. destruct (span3_ok response_text) as (w & ->). simpl. eauto.
Qed.


(** C1 (amended): the cleanup pass is applied to the span selected by
    strategies 1, 2, 3, 5 and 6; the span of strategy 4 is returned as it is,
    and strategy 7 returns the wrapped response. *)
Theorem cleanup_application (response_text : str) (k : nat) (w : str) :
  selected response_text = Ok (k, w) ->
  match k with
  | 1 | 2 | 3 | 5 | 6 => extract response_text = Ok (clean_html w)
  | 4 => extract response_text = Ok w
  | _ => extract response_text = Ok (last_resort response_text)
  end.
Proof.
  unfold selected, extract, method1, method2, method3, method4, method5, method6.
  destruct (span1 response_text); simpl.
  { intros H; inversion H; subst; reflexivity. }
  destruct (span2 response_text) as [[w2|]|]; simpl;
    [intros H; inversion H; subst; reflexivity| |discriminate].
  destruct (span3 response_text) as [[w3|]|]; simpl;
    [intros H; inversion H; subst; reflexivity| |discriminate].
  destruct (span4 response_text); simpl;
    [intros H; inversion H; subst; reflexivity|].
  destruct (span5 response_text); simpl;
    [intros H; inversion H; subst; reflexivity|].
  destruct (span6 response_text); simpl;
    intros H; inversion H; subst; reflexivity.
Qed.

Lemma cleanup_application_witness :
  selected body_fragment = Ok (4, lit "<body><p>x</p>") /\
  extract body_fragment = Ok (lit "<body><p>x</p>").
Proof.
  split; [reflexivity|].
  apply (cleanup_application body_fragment 4 (lit "<body><p>x</p>")).
  reflexivity.
Defined.

(** C1 as stated fails: on [<meta a>] strategy 5 selects the whole text, and
    the cleanup pass then removes it. *)
Lemma cleanup_on_strategy5 :
  ~ (forall (response_text : str) (k : nat) (w : str),
       selected response_text = Ok (k, w) -> k = 4 \/ k = 5 ->
       extract response_text = Ok w).
Proof.
  intros H.
  specialize (H meta_only 5 meta_only eq_refl (or_intror eq_refl)).
  vm_compute in H. discriminate.
Qed.

(** C4: the claim has strategy 4 select the text up to the last closing tag;
    the code stops at the first one.  On [<div>a</div>] followed on the next
    line by [<p>b</p>] the span, and the result, is [<div>a</div>]. *)
Theorem method4_first_closing_tag :
  selected two_elements = Ok (4, lit "<div>a</div>") /\
  extract two_elements = Ok (lit "<div>a</div>") /\
  Py.contains (lit "</p>") (lit "<div>a</div>") = false.
Proof. repeat split; reflexivity. Qed.

(** C6: on the whole-document example the result is the style block, a line
    break and the body content; the style rule occurs once, [<div>hi</div>]
    is there, and none of [<!DOCTYPE], [<html], [<head], [<body] is. *)
Theorem document_cleanup :
  extract whole_document = Ok cleaned_document /\
  Py.occurrences (lit ".a{color:red}") cleaned_document = 1 /\
  Py.occurrences (lit "<style>.a{color:red}</style>") cleaned_document = 1 /\
  Py.contains (lit "<div>hi</div>") cleaned_document = true /\
  Py.contains (lit "<!DOCTYPE") cleaned_document = false /\
  Py.contains (lit "<html") cleaned_document = false /\
  Py.contains (lit "<head") cleaned_document = false /\
  Py.contains (lit "<body") cleaned_document = false /\
  (exists between after,
     cleaned_document =
     lit "<style>.a{color:red}</style>" ++ between ++ lit "<div>hi</div>" ++ after).
Proof.
  repeat split; try reflexivity.
  exists [Py.nl], []. reflexivity.
Qed.

(** C9: with an empty credential the function returns the fixed
    configuration-error fragment, whatever the provider would do, and the
    provider is not invoked. *)
Theorem config_absent_short_circuit (create : str -> result message) :
  generate_widget_html create [] = (config_error_widget, []) /\
  Py.contains (lit "Configuration Error") config_error_widget = true /\
  Py.contains (lit "ANTHROPIC_API_KEY is not set") config_error_widget = true.
Proof. repeat split; reflexivity. Qed.

(** ** The model fallback loop *)

Section Fallback.

Variable create : str -> result message.

Lemma try_models_skip (tried rest : list str) :
  (forall model, In model tried -> fails_not_found create model) ->
  forall last_error, exists last_error',
    try_models create (tried ++ rest) last_error =
    (fst (try_models create rest last_error'),
     tried ++ snd (try_models create rest last_error')) /\
    (tried = [] -> last_error' = last_error).
Proof.
  induction tried as [|model tried IH]; intros Hnf last_error.
  - exists last_error. simpl. now destruct (try_models create rest last_error).
  - destruct (Hnf model (or_introl eq_refl)) as (e & He & Hnot).
    destruct (IH (fun m Hm => Hnf m (or_intror Hm)) (Some e)) as (le & Hle & _).
    exists le. split; [|discriminate].
    simpl. rewrite He, Hnot, Hle. reflexivity.
Qed.

End Fallback.

(** C8: the loop goes once through [models_to_try] in order.  When every
    model before [model] fails with a not-found error, [model] is invoked;
    its success ends the call with the first text of its message, any other
    error is raised as it is, and when the last model too fails with a
    not-found error the call raises the terminal failure naming that error.
    In each case the models invoked are those up to [model]. *)
Theorem model_fallback (create : str -> result message)
    (tried : list str) (model : str) (later : list str) :
  models_to_try = tried ++ model :: later ->
  (forall m, In m tried -> fails_not_found create m) ->
  (forall msg, create model = Ok msg ->
     call_anthropic_api create = (index0 msg, tried ++ [model])) /\
  (forall e, create model = Raise e -> is_not_found e = false ->
     call_anthropic_api create = (Raise e, tried ++ [model])) /\
  (forall e, create model = Raise e -> is_not_found e = true -> later = [] ->
     call_anthropic_api create =
     (Raise (Exception (lit "None of the available models worked. Last error: "
                        ++ exn_str e)),
      models_to_try)).
Proof.
  intros Hm Hnf. unfold call_anthropic_api. rewrite Hm.
  destruct (try_models_skip create tried (model :: later) Hnf None)
    as (le & -> & _).
  repeat split.
  - intros msg Hc. simpl. rewrite Hc. reflexivity.
  - intros e Hc He. simpl. rewrite Hc, He. reflexivity.
  - intros e Hc He ->. simpl. rewrite Hc, He. reflexivity.
Qed.

Lemma model_fallback_witness :
  call_anthropic_api third_only =
  (Ok (lit "<div>third</div>"),
   [lit "claude-3-5-haiku-20241022"; lit "claude-3-haiku-20240307";
    lit "claude-3-5-sonnet-20240620"]).
Proof.
  refine (proj1 (model_fallback third_only
            [lit "claude-3-5-haiku-20241022"; lit "claude-3-haiku-20240307"]
            (lit "claude-3-5-sonnet-20240620")
            [lit "claude-3-sonnet-20240229"] eq_refl _) _ eq_refl).
  intros m [<-|[<-|[]]]; exists not_found_error; split; reflexivity.
Defined.

(** ** Fences and lead-in phrases *)

Lemma alts_lang (ic : bool) (ps : list str) :
  forall (p u : str) (g g' : option str),
  lang ic (alts p ps) u g g' <->
  (g' = g /\ exists q, In q (p :: ps) /\ lit_eq ic q u = true).
Proof.
  induction ps as [|p' ps IH]; intros p u g g'; simpl.
  - split.
    + intros [H ->]. split; [reflexivity|]. exists p. auto.
    + intros [-> (q & [<-|[]] & H)]. auto.
  - rewrite IH. split.
    + intros [[H ->]|[-> (q & Hq & H)]]; (split; [reflexivity|]).
      * exists p. auto.
      * exists q. simpl in Hq. tauto.
    + intros [-> (q & [<-|Hq] & H)]; [left; auto|right].
      split; [reflexivity|]. exists q. auto.
Qed.

Lemma alts_nonempty (ic : bool) (p : str) (ps : list str) :
  Forall (fun q => q <> []) (p :: ps) -> nonempty_pat ic (alts p ps).
Proof.
  intros Hall u g L. apply alts_lang in L as [_ (q & Hq & H)].
  rewrite Forall_forall in Hall. specialize (Hall q Hq).
  apply lit_eq_length in H. destruct u; [|discriminate].
  destruct q; [congruence|discriminate].
Qed.

Lemma all_any (ic : bool) (u : str) : forallb (in_cset ic Any) u = true.
Proof. induction u; simpl; auto. Qed.

Lemma lower_char_inv (b n : char) :
  Py.lower_char b = n -> (n < 97 \/ 122 < n)%N -> b = n.
Proof.
  unfold Py.lower_char, Py.is_upper. intros H Hn.
  destruct (65 <=? b)%N eqn:E1; destruct (b <=? 90)%N eqn:E2; cbn [andb] in H;
    try apply N.leb_le in E1; try apply N.leb_le in E2; try lia;
    destruct (b =? 304)%N; try lia; destruct (b =? 8490)%N; lia.
Qed.

(** A pattern character of ASCII that is not a letter matches itself only,
    with or without IGNORECASE. *)
Lemma chr_eq_plain (ic : bool) (a b : char) :
  (a < 65 \/ (90 < a /\ a < 97) \/ (122 < a /\ a < 128))%N ->
  chr_eq ic a b = true -> b = a.
Proof.
  intros Ha. unfold chr_eq, Py.eqc. destruct ic.
  - assert (Hl : Py.lower_char a = a).
    { unfold Py.lower_char, Py.is_upper.
      destruct (65 <=? a)%N eqn:E1; destruct (a <=? 90)%N eqn:E2; cbn [andb];
        try apply N.leb_le in E1; try apply N.leb_le in E2; try lia;
        destruct (a =? 304)%N eqn:E3; try (apply N.eqb_eq in E3; lia);
        destruct (a =? 8490)%N eqn:E4; try (apply N.eqb_eq in E4; lia);
        reflexivity. }
    rewrite Hl.
    assert (Hf : fixes a = []).
    { unfold fixes.
      destruct (a =? 105)%N eqn:E3; try (apply N.eqb_eq in E3; lia).
      destruct (a =? 115)%N eqn:E4; try (apply N.eqb_eq in E4; lia).
      reflexivity. }
    rewrite Hf. cbn [existsb]. rewrite orb_false_r. intros H.
    apply N.eqb_eq in H. apply lower_char_inv; [exact H|lia].
  - intros H. apply N.eqb_eq in H. now subst.
Qed.

Lemma backquote_only (b : char) :
  chr_eq true (code "`") b = true -> b = code "`".
Proof. apply chr_eq_plain. right. left. split; reflexivity. Qed.

Lemma newline_only (b : char) : chr_eq true Py.nl b = true -> b = Py.nl.
Proof. apply chr_eq_plain. left. reflexivity. Qed.

Lemma spells_fence (t : str) : spells fence t -> t = fence.
Proof.
  unfold spells, fence, lit. intros H.
  destruct t as [|c1 [|c2 [|c3 [|c4 t]]]];
    cbn [lit_eq list_ascii_of_string map] in H; split_andb; try discriminate.
  repeat match goal with
         | E : chr_eq true _ _ = true |- _ => apply backquote_only in E
         end.
  now subst.
Qed.

Lemma spells_break (t : str) : spells [Py.nl; Py.nl] t -> t = [Py.nl; Py.nl].
Proof.
  unfold spells. intros H.
  destruct t as [|c1 [|c2 [|c3 t]]]; cbn [lit_eq] in H; split_andb;
    try discriminate.
  repeat match goal with
         | E : chr_eq true _ _ = true |- _ => apply newline_only in E
         end.
  now subst.
Qed.

(** The texts matched by the pattern of method 1. *)
Lemma fence_html_lang (u : str) (g : option str) :
  lang true re_fence_html u None g <->
  exists f w1 c w2,
    u = f ++ w1 ++ c ++ w2 ++ fence /\ spells (lit "```html") f /\
    blank w1 /\ blank w2 /\ g = Some c.
Proof.
  unfold re_fence_html. cbn [lang]. split.
  - intros (f & u1 & g1 & -> & [Hf ->] & w1 & u2 & g2 & -> & [Hw1 ->] &
            c & u3 & g3 & -> & (g4 & _ & ->) & w2 & t & g5 & -> & [Hw2 ->] &
            Ht & ->).
    apply spells_fence in Ht. subst t.
    exists f, w1, c, w2. auto.
  - intros (f & w1 & c & w2 & -> & Hf & Hw1 & Hw2 & ->).
    exists f, (w1 ++ c ++ w2 ++ fence), None. repeat split; auto.
    exists w1, (c ++ w2 ++ fence), None. repeat split; auto.
    exists c, (w2 ++ fence), (Some c). repeat split; auto.
    + exists None. split; [|reflexivity]. split; [apply all_any|reflexivity].
    + exists w2, fence, (Some c). repeat split; auto.
Qed.

(** The texts matched by the lead-in pattern of method 1. *)
Lemma break_lead_in_lang (u : str) (g : option str) :
  lang true re_break_lead_in u None g <->
  g = None /\
  exists ws p, u = [Py.nl; Py.nl] ++ ws ++ p /\ blank ws /\ lead_in long_phrases p.
Proof.
  unfold re_break_lead_in, lead_in_long. cbn [lang]. split.
  - intros (t & u1 & g1 & -> & [Ht ->] & ws & p & g2 & -> & [Hws ->] & Hp).
    apply alts_lang in Hp as [-> Hp]. apply spells_break in Ht. subst t.
    split; [reflexivity|]. exists ws, p. auto.
  - intros [-> (ws & p & -> & Hws & Hp)].
    exists [Py.nl; Py.nl], (ws ++ p), None. repeat split; auto.
    exists ws, p, None. repeat split; auto.
    apply alts_lang. auto.
Qed.

Lemma app_inj_length (a b x y : str) :
  length a = length b -> a ++ x = b ++ y -> a = b /\ x = y.
Proof.
  revert b. induction a as [|c a IH]; intros [|d b] Hl H; simpl in *;
    try discriminate; auto.
  inversion H; subst. destruct (IH b) as [-> ->]; auto.
Qed.

Lemma blank_before_fence (ws : str) :
  blank ws ->
  forall x post, ws ++ fence = x ++ fence ++ post -> x = ws /\ post = [].
Proof.
  unfold blank. induction ws as [|w ws IH]; intros Hb x post H.
  - apply (f_equal (@length char)) in H. rewrite !length_app in H.
    simpl in H. destruct x; [|simpl in H; lia].
    destruct post; [auto|simpl in H; lia].
  - simpl in Hb. apply andb_prop in Hb as [Hw Hb].
    destruct x as [|c x].
    + simpl in H. inversion H; subst. discriminate.
    + simpl in H. inversion H; subst.
      destruct (IH Hb _ _ H2) as [-> ->]. auto.
Qed.

Lemma lstrip_blank (ws : str) : blank ws -> Py.lstrip ws = [].
Proof.
  unfold blank. induction ws as [|w ws IH]; simpl; [auto|].
  intros H. apply andb_prop in H as [-> H]. auto.
Qed.

Lemma strip_blank (ws : str) : blank ws -> Py.strip ws = [].
Proof.
  intros H. unfold Py.strip. now rewrite (lstrip_blank _ H).
Qed.

Lemma blank_app (a b : str) : blank (a ++ b) <-> blank a /\ blank b.
Proof.
  unfold blank. rewrite forallb_app. apply andb_true_iff.
Qed.

(** A response with a fenced [html] block: method 1 finds the leftmost one,
    and the result is made of its content alone. *)
Lemma fenced_block_found (response_text a f b c : str) :
  response_text = a ++ f ++ b ++ fence ++ c ->
  spells (lit "```html") f ->
  exists m f' w1 w2,
    search true re_fence_html response_text = Some m /\
    response_text =
      m_pre m ++ (f' ++ w1 ++ group1 m ++ w2 ++ fence) ++ m_post m /\
    spells (lit "```html") f' /\ blank w1 /\ blank w2 /\
    length (m_pre m) <= length a /\
    extract response_text = Ok (fence_result (group1 m)).
Proof.
  intros Hr Hf.
  assert (L : lang true re_fence_html (f ++ b ++ fence) None (Some b)).
  { apply fence_html_lang. exists f, [], b, []. repeat split; auto. }
  assert (Hr' : response_text = a ++ (f ++ b ++ fence) ++ c).
  { rewrite Hr. now rewrite <- !app_assoc. }
  destruct (search_leftmost true re_fence_html _ _ _ _ _ Hr' L) as (m & Hm & Hlen).
  destruct (search_sound _ _ _ _ Hm) as [Hs Lm].
  apply fence_html_lang in Lm as (f' & w1 & c' & w2 & Ht & Hf' & Hw1 & Hw2 & Hg).
  assert (Hc : group1 m = c') by (unfold group1; now rewrite Hg).
  exists m, f', w1, w2. rewrite Hc, <- Ht. repeat split; auto.
  unfold extract, method1, span1, fence_result. rewrite Hm, Hc.
  destruct (search true re_break_lead_in (Py.strip c')); reflexivity.
Qed.

(** C3: the strategies are tried in the order 1 to 7 and the first that
    matches gives the result; in particular a response that holds a fenced
    [html] block gets its result from the content of the leftmost such
    block, whatever else (a whole-document tag pair included) it holds. *)
Theorem strategy_precedence (response_text : str) :
  (forall w, method1 response_text = Some w -> extract response_text = Ok w) /\
  (forall w, method1 response_text = None ->
     method2 response_text = Ok (Some w) -> extract response_text = Ok w) /\
  (forall w, method1 response_text = None -> method2 response_text = Ok None ->
     method3 response_text = Ok (Some w) -> extract response_text = Ok w) /\
  (forall w, method1 response_text = None -> method2 response_text = Ok None ->
     method3 response_text = Ok None -> method4 response_text = Some w ->
     extract response_text = Ok w) /\
  (forall w, method1 response_text = None -> method2 response_text = Ok None ->
     method3 response_text = Ok None -> method4 response_text = None ->
     method5 response_text = Some w -> extract response_text = Ok w) /\
  (forall w, method1 response_text = None -> method2 response_text = Ok None ->
     method3 response_text = Ok None -> method4 response_text = None ->
     method5 response_text = None -> method6 response_text = Some w ->
     extract response_text = Ok w) /\
  (method1 response_text = None -> method2 response_text = Ok None ->
     method3 response_text = Ok None -> method4 response_text = None ->
     method5 response_text = None -> method6 response_text = None ->
     extract response_text = Ok (last_resort response_text)) /\
  (forall a f b c,
     response_text = a ++ f ++ b ++ fence ++ c -> spells (lit "```html") f ->
     exists m f' w1 w2,
       search true re_fence_html response_text = Some m /\
       response_text =
         m_pre m ++ (f' ++ w1 ++ group1 m ++ w2 ++ fence) ++ m_post m /\
       spells (lit "```html") f' /\ blank w1 /\ blank w2 /\
       length (m_pre m) <= length a /\
       extract response_text = Ok (fence_result (group1 m))).
Proof.
  repeat match goal with |- _ /\ _ => split end;
    try (intros; eapply fenced_block_found; eassumption);
    unfold extract; intros;
    repeat match goal with
           | H : _ = Ok _ |- _ => rewrite H
           | H : _ = Some _ |- _ => rewrite H
           | H : _ = None |- _ => rewrite H
           end; reflexivity.
Qed.

Lemma strategy_precedence_witness :
  exists m,
    search true re_fence_html mixed_response = Some m /\
    group1 m = lit "<b>x</b>" /\
    extract mixed_response = Ok (lit "<b>x</b>").
Proof.
  destruct (proj2 (proj2 (proj2 (proj2 (proj2 (proj2 (proj2
              (strategy_precedence mixed_response)))))))
              (lit "text ") (lit "```html") (lit " <b>x</b> ")
              (lit " and <html><i>y</i></html>") eq_refl eq_refl)
    as (m & f' & w1 & w2 & Hm & _ & _ & _ & _ & _ & He).
  exists m. vm_compute in Hm. inversion Hm; subst m.
  split; [reflexivity|]. split; [reflexivity|]. exact He.
Defined.

Lemma spells_length (p u : str) : spells p u -> length u = length p.
Proof. apply lit_eq_length. Qed.

(** C10: a response that is exactly an [html] fence around white space (or
    around nothing) is handled by strategy 1, and the result is the empty
    string. *)
Theorem empty_fence (f ws : str) :
  spells (lit "```html") f -> blank ws ->
  span1 (f ++ ws ++ fence) = Some [] /\
  extract (f ++ ws ++ fence) = Ok [].
Proof.
  intros Hf Hws.
  assert (Hr : f ++ ws ++ fence = [] ++ f ++ ws ++ fence ++ [])
    by now rewrite app_nil_r.
  destruct (fenced_block_found _ _ _ _ _ Hr Hf)
    as (m & f' & w1 & w2 & Hm & Ht & Hf' & Hw1 & Hw2 & Hlen & He).
  destruct (m_pre m) as [|c pre] eqn:Hpre; [|simpl in Hlen; lia].
  simpl in Ht. rewrite <- !app_assoc in Ht.
  apply app_inj_length in Ht as [_ Ht];
    [|now rewrite (spells_length _ _ Hf), (spells_length _ _ Hf')].
  rewrite 2!app_assoc in Ht.
  apply (blank_before_fence _ Hws) in Ht as [Hx _].
  assert (Hg : blank (group1 m)).
  { rewrite <- Hx in Hws. apply blank_app in Hws as [Hws _].
    now apply blank_app in Hws as [_ Hws]. }
  split.
  - unfold span1. rewrite Hm, (strip_blank _ Hg). reflexivity.
  - rewrite He. unfold fence_result. rewrite (strip_blank _ Hg). reflexivity.
Qed.

Lemma empty_fence_witness :
  extract (lit "```html" ++ [Py.nl] ++ fence) = Ok [].
Proof.
  apply (proj2 (empty_fence (lit "```html") [Py.nl] eq_refl eq_refl)).
Defined.

(** C7 (amended): when the trimmed content of the fenced [html] block holds
    two line feeds in a row, then white space or none, then a lead-in phrase
    in any case, strategy 1 keeps the content before the first such pair of
    line feeds and nothing after it; on the fenced [<div>X</div>] followed
    by two line feeds and the commentary, the result holds [<div>X</div>]
    and not the commentary. *)
Theorem lead_in_truncation :
  (forall (response_text : str) (m : rmatch) (pre ws p rest : str),
     search true re_fence_html response_text = Some m ->
     Py.strip (group1 m) = pre ++ [Py.nl; Py.nl] ++ ws ++ p ++ rest ->
     blank ws -> lead_in long_phrases p ->
     exists kept ws' p' rest',
       Py.strip (group1 m) = kept ++ [Py.nl; Py.nl] ++ ws' ++ p' ++ rest' /\
       blank ws' /\ lead_in long_phrases p' /\
       length kept <= length pre /\
       extract response_text = Ok (clean_html (Py.strip kept))) /\
  (exists widget_html,
     extract commented_fence = Ok widget_html /\
     Py.contains (lit "<div>X</div>") widget_html = true /\
     Py.contains (lit "Here's the widget") widget_html = false).
Proof.
  split.
  - intros response_text m pre ws p rest Hm Hc Hws Hp.
    assert (L : lang true re_break_lead_in ([Py.nl; Py.nl] ++ ws ++ p) None None).
    { apply break_lead_in_lang. split; [reflexivity|]. exists ws, p. auto. }
    assert (Hc' : Py.strip (group1 m) = pre ++ ([Py.nl; Py.nl] ++ ws ++ p) ++ rest).
    { rewrite Hc. now rewrite <- !app_assoc. }
    destruct (search_leftmost true _ _ _ _ _ _ Hc' L) as (sm & Hsm & Hlen).
    destruct (search_sound _ _ _ _ Hsm) as [Hs Lm].
    apply break_lead_in_lang in Lm as [_ (ws' & p' & Ht & Hws' & Hp')].
    exists (m_pre sm), ws', p', (m_post sm). repeat split; auto.
    + rewrite Hs at 1. rewrite Ht. now rewrite <- !app_assoc.
    + unfold extract, method1, span1. rewrite Hm, Hsm. reflexivity.
  - exists (lit "<div>X</div>"). repeat split; reflexivity.
Qed.

Lemma lead_in_truncation_witness :
  exists kept,
    length kept <= 12 /\
    extract commented_fence = Ok (clean_html (Py.strip kept)).
Proof.
  destruct (proj1 lead_in_truncation commented_fence
              (MkMatch [] commented_fence
                 (Some (lit "<div>X</div>" ++ Py.nl :: Py.nl ::
                        lit "Here's the widget you wanted")) [])
              (lit "<div>X</div>") [] (lit "Here's") (lit " the widget you wanted")
              eq_refl eq_refl eq_refl
              (ex_intro _ (lit "Here's") (conj (or_introl eq_refl) eq_refl)))
    as (kept & ws' & p' & rest' & _ & _ & _ & Hlen & He).
  exists kept. split; [exact Hlen|exact He].
Defined.

(** C5 (amended): strategy 2 cuts the content between the document tags at
    the first occurrence, in any case, of one of "Here's", "This widget",
    "The widget", "The design"; without such an occurrence the content is
    kept whole. *)
Theorem method2_truncation (response_text : str) (m : rmatch) :
  method1 response_text = None ->
  search true re_html_doc response_text = Some m ->
  exists kept,
    extract response_text = Ok (clean_html (Py.strip kept)) /\
    ((kept = Py.strip (group1 m) /\
      forall a u b, Py.strip (group1 m) = a ++ u ++ b ->
                    ~ lead_in short_phrases u) \/
     (exists u rest,
        Py.strip (group1 m) = kept ++ u ++ rest /\ lead_in short_phrases u /\
        forall a u' b, Py.strip (group1 m) = a ++ u' ++ b ->
                       lead_in short_phrases u' -> length kept <= length a)).
Proof.
  intros H1 Hm.
  assert (Hne : nonempty_pat true lead_in_short).
  { apply alts_nonempty. repeat constructor; discriminate. }
  assert (Hocc : forall u, lead_in short_phrases u <->
                           lang true lead_in_short u None None).
  { intros u. unfold lead_in_short. rewrite alts_lang. unfold lead_in, spells.
    tauto. }
  exists (match search true lead_in_short (Py.strip (group1 m)) with
          | Some sm => m_pre sm
          | None => Py.strip (group1 m)
          end).
  split.
  - unfold extract, method2, span2. rewrite H1, Hm.
    rewrite (split_head true _ _ Hne). reflexivity.
  - destruct (search true lead_in_short (Py.strip (group1 m))) as [sm|] eqn:Hsm.
    + right. destruct (search_sound _ _ _ _ Hsm) as [Hs Lm].
      exists (m_text sm), (m_post sm). repeat split; auto.
      * apply Hocc. unfold lead_in_short in *.
        apply alts_lang in Lm as [_ Lm]. apply alts_lang. auto.
      * intros a u' b Hc Hu'. apply Hocc in Hu'.
        destruct (search_leftmost true _ _ _ _ _ _ Hc Hu') as (sm' & Hsm' & Hlen).
        congruence.
    + left. split; [reflexivity|]. intros a u b Hc Hu.
      apply (search_none true _ _ Hsm). exists a, u, b, None.
      split; [exact Hc|]. now apply Hocc.
Qed.

Lemma method2_truncation_witness :
  exists kept, extract this_document = Ok (clean_html (Py.strip kept)).
Proof.
  destruct (method2_truncation this_document
              (MkMatch [] this_document (Some (lit "<p>This is fine</p>")) [])
              eq_refl eq_refl) as (kept & He & _).
  exists kept. exact He.
Defined.

(** C5 as stated fails: "This" is a lead-in phrase of strategy 1, and the
    span strategy 2 selects on [<html><p>This is fine</p></html>] still
    holds it. *)
Lemma method2_keeps_this :
  ~ (forall (response_text w : str),
       selected response_text = Ok (2, w) ->
       forall a u b, w = a ++ u ++ b -> ~ lead_in long_phrases u).
Proof.
  intros H.
  apply (H this_document (lit "<p>This is fine</p>") eq_refl
           (lit "<p>") (lit "This") (lit " is fine</p>") eq_refl).
  exists (lit "This"). split; [simpl; tauto|reflexivity].
Qed.

(** ** The provider call within [generate_widget_html] *)

Lemma try_models_calls (create : str -> result message) (models : list str) :
  forall last_error, exists n,
    snd (try_models create models last_error) = firstn n models /\
    n <= length models /\ (models <> [] -> 1 <= n).
Proof.
  induction models as [|model rest IH]; intros last_error.
  - exists 0. simpl. repeat split; auto. congruence.
  - simpl. destruct (create model) as [msg|e].
    + exists 1. simpl. repeat split; auto; lia.
    + destruct (is_not_found e).
      * destruct (IH (Some e)) as (n & Hn & Hle & _).
        destruct (try_models create rest (Some e)) as [r calls].
        exists (S n). simpl in *. rewrite Hn. repeat split; auto; lia.
      * exists 1. simpl. repeat split; auto; lia.
Qed.

(** The provider is invoked at least once and at most four times, with the
    models of [models_to_try] in their order and none of them twice. *)
Theorem provider_calls_bounded (create : str -> result message) :
  exists n, 1 <= n <= 4 /\
    snd (call_anthropic_api create) = firstn n models_to_try.
Proof.
  unfold call_anthropic_api.
  destruct (try_models_calls create models_to_try None) as (n & Hn & Hle & Hge).
  destruct (try_models create models_to_try None) as [r calls].
  exists n. simpl in *. repeat split; auto.
  apply Hge. discriminate.
Qed.

Lemma extract_ok (response_text : str) :
  exists widget_html, extract response_text = Ok widget_html.
Proof.
  unfold extract.
  destruct (method2_ok response_text) as (w2 & ->).
  destruct (method3_ok response_text) as (w3 & ->).
  destruct (method1 response_text); simpl; [eauto|].
  destruct w2; simpl; [eauto|].
  destruct w3; simpl; [eauto|].
  destruct (method4 response_text); simpl; [eauto|].
  destruct (method5 response_text); simpl; [eauto|].
  destruct (method6 response_text); simpl; eauto.
Qed.

Lemma framed_text (n : char) (a b1 w b2 c x d : str) :
  n :: a ++ n :: b1 ++ w ++ b2 ++ n :: c ++ x ++ d =
  (n :: a ++ n :: b1 ++ w ++ b2 ++ n :: c) ++ x ++ d.
Proof.
  repeat (simpl; rewrite <- app_assoc). reflexivity.
Qed.

(** With a credential, the text the provider call returns always becomes the
    extracted widget (the extraction never ends in the error branch), and an
    exception of the provider call becomes the error widget, which carries
    the exception's text as it is. *)
Theorem generate_outcome (create : str -> result message) (key : str) :
  key <> [] ->
  (forall response_text,
     fst (call_anthropic_api create) = Ok response_text ->
     exists widget_html,
       extract response_text = Ok widget_html /\
       generate_widget_html create key =
       (widget_html, snd (call_anthropic_api create))) /\
  (forall e,
     fst (call_anthropic_api create) = Raise e ->
     generate_widget_html create key =
     (error_widget e, snd (call_anthropic_api create)) /\
     exists before after, error_widget e = before ++ exn_str e ++ after).
Proof.
  intros Hkey. unfold generate_widget_html.
  destruct key as [|c key]; [congruence|]. cbn [is_empty].
  destruct (call_anthropic_api create) as [r calls]. cbn [fst snd]. split.
  - intros response_text ->. cbn [bind].
    destruct (extract_ok response_text) as (w & Hw). rewrite Hw. eauto.
  - intros e ->. cbn [bind]. split; [reflexivity|].
    unfold error_widget. eexists. eexists. apply framed_text.
Qed.

Lemma generate_outcome_witness :
  generate_widget_html third_only (lit "sk-test") =
  (lit "<div>third</div>",
   [lit "claude-3-5-haiku-20241022"; lit "claude-3-haiku-20240307";
    lit "claude-3-5-sonnet-20240620"]).
Proof.
  assert (Hkey : lit "sk-test" <> []) by discriminate.
  destruct (proj1 (generate_outcome third_only (lit "sk-test") Hkey)
              (lit "<div>third</div>") eq_refl) as (w & Hw & ->).
  vm_compute in Hw. inversion Hw. reflexivity.
Defined.

(** A provider message without any content block ends in the error widget
    for the index error; the later models are not tried. *)
Theorem empty_message_is_an_error (create : str -> result message)
    (key model : str) (later : list str) :
  key <> [] ->
  models_to_try = model :: later ->
  create model = Ok [] ->
  generate_widget_html create key = (error_widget IndexError, [model]) /\
  Py.contains (lit "list index out of range") (error_widget IndexError) = true.
Proof.
  intros Hkey Hm Hc. split; [|reflexivity].
  unfold generate_widget_html, call_anthropic_api.
  destruct key as [|c key]; [congruence|]. simpl is_empty. cbv iota.
  rewrite Hm. simpl. rewrite Hc. reflexivity.
Qed.

Lemma empty_message_is_an_error_witness :
  generate_widget_html (fun _ => Ok []) (lit "sk-test") =
  (error_widget IndexError, [lit "claude-3-5-haiku-20241022"]).
Proof.
  assert (Hkey : lit "sk-test" <> []) by discriminate.
  exact (proj1 (empty_message_is_an_error (fun _ => Ok []) (lit "sk-test")
                  (lit "claude-3-5-haiku-20241022") _ Hkey eq_refl eq_refl)).
Defined.

(** ** Pieces of a text *)

Lemma infix_refl (s : str) : infix s s.
Proof. exists [], []. now rewrite app_nil_r. Qed.

Lemma infix_trans (p q s : str) : infix p q -> infix q s -> infix p s.
Proof.
  intros (a & b & ->) (c & d & ->). exists (c ++ a), (b ++ d).
  now rewrite <- !app_assoc.
Qed.

Lemma infix_prefix (p b : str) : infix p (p ++ b).
Proof. now exists [], b. Qed.

Lemma infix_suffix (a p : str) : infix p (a ++ p).
Proof. exists a, []. now rewrite app_nil_r. Qed.

Lemma infix_nil (s : str) : infix [] s.
Proof. now exists [], s. Qed.

Lemma infix_In (p s : str) (c : char) : infix p s -> In c p -> In c s.
Proof.
  intros (a & b & ->) H. apply in_or_app. right. apply in_or_app. now left.
Qed.

Lemma eqc_eq (a b : char) : Py.eqc a b = true <-> a = b.
Proof. apply N.eqb_eq. Qed.

Lemma startswith_prefix (p s : str) :
  Py.startswith p s = true <-> exists b, s = p ++ b.
Proof.
  revert s. induction p as [|a p IH]; intros s; simpl.
  - split; eauto.
  - destruct s as [|c s].
    + split; [discriminate|]. intros (b & H). discriminate.
    + rewrite andb_true_iff, eqc_eq, IH. split.
      * intros [-> (b & ->)]. eauto.
      * intros (b & H). inversion H. eauto.
Qed.

Lemma contains_infix (p s : str) : Py.contains p s = true <-> infix p s.
Proof.
  induction s as [|c s IH]; simpl; rewrite orb_true_iff, startswith_prefix.
  - split.
    + intros [(b & H)|H]; [|discriminate]. exists [], b. exact H.
    + intros (a & b & H). left. destruct a; [eauto|discriminate].
  - rewrite IH. split.
    + intros [(b & H)|(a & b & ->)].
      * exists [], b. exact H.
      * now exists (c :: a), b.
    + intros (a & b & H). destruct a as [|c' a].
      * left. eauto.
      * right. inversion H. now exists a, b.
Qed.

Lemma contains_char (c : char) (s : str) : Py.contains [c] s = true <-> In c s.
Proof.
  rewrite contains_infix. split.
  - intros H. apply (infix_In _ _ _ H). now left.
  - intros H. apply in_split in H as (a & b & ->). now exists a, b.
Qed.

Lemma no_lt (s : str) : Py.contains (lit "<") s = false -> ~ In lt s.
Proof.
  intros H Hin. apply (contains_char lt s) in Hin.
  change (lit "<") with [lt] in H. congruence.
Qed.

(** ** Trimming *)

Lemma lstrip_split (s : str) : exists ws, s = ws ++ Py.lstrip s /\ blank ws.
Proof.
  induction s as [|c s (ws & IH & Hws)]; simpl.
  - now exists [].
  - destruct (Py.is_space c) eqn:E.
    + exists (c :: ws). split; [simpl; congruence|].
      unfold blank in *. simpl. now rewrite E.
    + now exists [].
Qed.

Lemma blank_rev (ws : str) : blank ws -> blank (rev ws).
Proof.
  unfold blank. rewrite !forallb_forall. intros H x Hx.
  apply H. now apply in_rev.
Qed.

Lemma rstrip_split (s : str) : exists ws, s = Py.rstrip s ++ ws /\ blank ws.
Proof.
  unfold Py.rstrip. destruct (lstrip_split (rev s)) as (ws & H & Hws).
  exists (rev ws). split.
  - rewrite <- rev_app_distr, <- H. now rewrite rev_involutive.
  - now apply blank_rev.
Qed.

Lemma strip_infix (s : str) : infix (Py.strip s) s.
Proof.
  unfold Py.strip.
  destruct (lstrip_split s) as (a & Ha & _).
  destruct (rstrip_split (Py.lstrip s)) as (b & Hb & _).
  exists a, b. now rewrite <- Hb.
Qed.

Lemma lstrip_head (s t : str) (c : char) :
  Py.lstrip s = c :: t -> Py.is_space c = false.
Proof.
  induction s as [|d s IH]; simpl; [discriminate|].
  destruct (Py.is_space d) eqn:E; [exact IH|].
  intros H. now inversion H; subst.
Qed.

Lemma lstrip_fixed (s : str) :
  (forall c t, s = c :: t -> Py.is_space c = false) -> Py.lstrip s = s.
Proof.
  destruct s as [|c t]; [reflexivity|]. intros H. simpl.
  now rewrite (H c t eq_refl).
Qed.

Lemma lstrip_idem (s : str) : Py.lstrip (Py.lstrip s) = Py.lstrip s.
Proof.
  apply lstrip_fixed. intros c t. apply lstrip_head.
Qed.

Lemma rstrip_idem (s : str) : Py.rstrip (Py.rstrip s) = Py.rstrip s.
Proof.
  unfold Py.rstrip. now rewrite rev_involutive, lstrip_idem.
Qed.

Lemma strip_idem (s : str) : Py.strip (Py.strip s) = Py.strip s.
Proof.
  unfold Py.strip.
  assert (H : Py.lstrip (Py.rstrip (Py.lstrip s)) = Py.rstrip (Py.lstrip s)).
  { apply lstrip_fixed. intros c t Ht.
    destruct (rstrip_split (Py.lstrip s)) as (ws & Hs & _).
    rewrite Ht in Hs. simpl in Hs. exact (lstrip_head _ _ _ Hs). }
  now rewrite H, rstrip_idem.
Qed.

Lemma clean_html_trimmed (html : str) :
  Py.strip (clean_html html) = clean_html html.
Proof. unfold clean_html. apply strip_idem. Qed.

(** What [extract] returns is trimmed of white space at both ends, unless it
    is the wrapper of the last resort. *)
Theorem extract_trimmed (response_text widget_html : str) :
  extract response_text = Ok widget_html ->
  widget_html = last_resort response_text \/
  Py.strip widget_html = widget_html.
Proof.
  unfold extract, method1, method2, method3, method4, method5, method6.
  destruct (span1 response_text); simpl.
  { intros H; inversion H; subst. right. apply clean_html_trimmed. }
  destruct (span2 response_text) as [[w2|]|]; simpl; [| |discriminate].
  { intros H; inversion H; subst. right. apply clean_html_trimmed. }
  destruct (span3 response_text) as [[w3|]|]; simpl; [| |discriminate].
  { intros H; inversion H; subst. right. apply clean_html_trimmed. }
  unfold span4.
  destruct (search false re_tag_span response_text); simpl.
  { intros H; inversion H; subst. right. apply strip_idem. }
  destruct (span5 response_text); simpl.
  { intros H; inversion H; subst. right. apply clean_html_trimmed. }
  destruct (span6 response_text); simpl;
    intros H; inversion H; subst; [right; apply clean_html_trimmed|now left].
Qed.

Lemma extract_trimmed_witness :
  Py.strip cleaned_document = cleaned_document.
Proof.
  destruct (extract_trimmed whole_document cleaned_document eq_refl) as [H|H].
  - vm_compute in H. discriminate.
  - exact H.
Defined.

(** ** Patterns that need a [<] *)

Lemma lt_only (ic : bool) (b : char) : chr_eq ic lt b = true -> b = lt.
Proof. apply chr_eq_plain. left. reflexivity. Qed.

Lemma starts_lt_lit (ic : bool) (p : str) : starts_lt ic (Lit (lt :: p)).
Proof.
  intros u g g' [H _]. destruct u as [|b u]; simpl in H; [discriminate|].
  apply andb_prop in H as [H _]. apply lt_only in H. subst. eauto.
Qed.

Lemma starts_lt_cat (ic : bool) (r1 r2 : re) :
  starts_lt ic r1 -> starts_lt ic (r1 @@ r2).
Proof.
  intros H u g g' (u1 & u2 & gm & -> & L1 & _).
  destruct (H _ _ _ L1) as (u' & ->). simpl. eauto.
Qed.

Lemma starts_lt_grp (ic : bool) (r : re) : starts_lt ic r -> starts_lt ic (Grp r).
Proof. intros H u g g' (g1 & L & _). exact (H _ _ _ L). Qed.

Lemma lt_doctype : starts_lt true re_doctype.
Proof. apply starts_lt_cat, (starts_lt_lit true (lit "!DOCTYPE")). Qed.

Lemma lt_html_open : starts_lt true re_html_open.
Proof. apply starts_lt_cat, (starts_lt_lit true (lit "html")). Qed.

Lemma lt_html_close : starts_lt true re_html_close.
Proof. apply (starts_lt_lit true (lit "/html>")). Qed.

Lemma lt_head : starts_lt true re_head.
Proof. apply starts_lt_cat, (starts_lt_lit true (lit "head")). Qed.

Lemma lt_body_open : starts_lt true re_body_open.
Proof. apply starts_lt_cat, (starts_lt_lit true (lit "body")). Qed.

Lemma lt_body_close : starts_lt true re_body_close.
Proof. apply (starts_lt_lit true (lit "/body>")). Qed.

Lemma lt_meta : starts_lt true re_meta.
Proof. apply starts_lt_cat, (starts_lt_lit true (lit "meta")). Qed.

Lemma lt_title : starts_lt true re_title.
Proof. apply starts_lt_cat, (starts_lt_lit true (lit "title")). Qed.

Lemma lt_html_doc : starts_lt true re_html_doc.
Proof. apply starts_lt_cat, (starts_lt_lit true (lit "html")). Qed.

Lemma lt_tag_span : starts_lt false re_tag_span.
Proof. apply starts_lt_grp, starts_lt_cat, (starts_lt_lit false []). Qed.

Lemma search_none_lt (ic : bool) (r : re) (s : str) :
  starts_lt ic r -> ~ In lt s -> search ic r s = None.
Proof.
  intros Hr Hs. destruct (search ic r s) as [m|] eqn:E; [|reflexivity].
  destruct (search_sound _ _ _ _ E) as [Hm L].
  destruct (Hr _ _ _ L) as (u' & Hu). exfalso. apply Hs.
  rewrite Hm, Hu. apply in_or_app. right. now left.
Qed.

Lemma sub_plain (ic : bool) (r : re) (s : str) :
  starts_lt ic r -> ~ In lt s -> Re.sub ic r s = s.
Proof.
  intros Hr. unfold Re.sub. induction s as [|c s IH]; intros Hs; [reflexivity|].
  cbn [sub_aux]. unfold match_len.
  destruct (match_here ic r (c :: s)) as [[g rest]|] eqn:E.
  - destruct (match_here_sound _ _ _ _ _ E) as (u & Hu & L).
    destruct (Hr _ _ _ L) as (u' & ->). inversion Hu; subst.
    exfalso. apply Hs. now left.
  - f_equal. apply IH. intros H. apply Hs. now right.
Qed.

Lemma clean_html_tagfree (html : str) :
  ~ In lt html -> clean_html html = Py.strip html.
Proof.
  intros H. unfold clean_html.
  rewrite (sub_plain true re_doctype html lt_doctype H).
  rewrite (sub_plain true re_html_open html lt_html_open H).
  rewrite (sub_plain true re_html_close html lt_html_close H).
  rewrite (search_none_lt true re_head html lt_head H).
  rewrite (sub_plain true re_body_open html lt_body_open H).
  rewrite (sub_plain true re_body_close html lt_body_close H).
  rewrite (sub_plain true re_meta html lt_meta H).
  rewrite (sub_plain true re_title html lt_title H).
  reflexivity.
Qed.

(** On a text without any [<] the cleanup pass only trims. *)
Theorem clean_html_plain (html : str) :
  Py.contains (lit "<") html = false -> clean_html html = Py.strip html.
Proof. intros H. apply clean_html_tagfree, no_lt, H. Qed.

Lemma clean_html_plain_witness :
  clean_html (lit "  a > b  ") = Py.strip (lit "  a > b  ").
Proof. apply (clean_html_plain (lit "  a > b  ")). reflexivity. Defined.

(** ** The captured group and the spans are pieces of the response *)

Lemma lang_group (ic : bool) (r : re) :
  forall (u : str) (g g' : option str),
  lang ic r u g g' -> g' = g \/ exists c, g' = Some c /\ infix c u.
Proof.
  induction r as [p|cs|cs|cs|r1 IH1 r2 IH2|r1 IH1 r2 IH2|r1 IH1];
    intros u g g' L; simpl in L.
  - left. tauto.
  - left. tauto.
  - left. tauto.
  - left. tauto.
  - destruct L as (u1 & u2 & gm & -> & L1 & L2).
    destruct (IH2 _ _ _ L2) as [->|(c & -> & Hc)].
    + destruct (IH1 _ _ _ L1) as [->|(c & -> & Hc)]; [now left|right].
      exists c. split; [reflexivity|].
      apply (infix_trans _ _ _ Hc), infix_prefix.
    + right. exists c. split; [reflexivity|].
      apply (infix_trans _ _ _ Hc), infix_suffix.
  - destruct L as [L|L]; eauto.
  - destruct L as (g1 & _ & ->). right. exists u. split; [reflexivity|].
    apply infix_refl.
Qed.

Lemma search_text_infix (ic : bool) (r : re) (s : str) (m : rmatch) :
  search ic r s = Some m -> infix (m_text m) s.
Proof.
  intros H. destruct (search_sound _ _ _ _ H) as [Hs _].
  now exists (m_pre m), (m_post m).
Qed.

Lemma search_pre_infix (ic : bool) (r : re) (s : str) (m : rmatch) :
  search ic r s = Some m -> infix (m_pre m) s.
Proof.
  intros H. destruct (search_sound _ _ _ _ H) as [Hs _].
  rewrite Hs. apply infix_prefix.
Qed.

Lemma search_group_infix (ic : bool) (r : re) (s : str) (m : rmatch) :
  search ic r s = Some m -> infix (group1 m) s.
Proof.
  intros H. destruct (search_sound _ _ _ _ H) as [_ L].
  unfold group1. destruct (lang_group _ _ _ _ _ L) as [->|(c & -> & Hc)].
  - apply infix_nil.
  - apply (infix_trans _ _ _ Hc), (search_text_infix _ _ _ _ H).
Qed.

Lemma short_nonempty : nonempty_pat true lead_in_short.
Proof. apply alts_nonempty. repeat constructor; discriminate. Qed.

Lemma split_piece_infix (s piece : str) :
  index0 (Re.split true lead_in_short s) = Ok piece -> infix piece s.
Proof.
  rewrite (split_head true _ _ short_nonempty). intros H. inversion H.
  destruct (search true lead_in_short s) as [m|] eqn:E.
  - apply (search_pre_infix _ _ _ _ E).
  - apply infix_refl.
Qed.

Lemma span1_infix (response_text w : str) :
  span1 response_text = Some w -> infix w response_text.
Proof.
  unfold span1.
  destruct (search true re_fence_html response_text) as [m|] eqn:E;
    [|discriminate].
  assert (Hg : infix (Py.strip (group1 m)) response_text).
  { apply (infix_trans _ _ _ (strip_infix _)), (search_group_infix _ _ _ _ E). }
  destruct (search true re_break_lead_in (Py.strip (group1 m))) as [sm|] eqn:S;
    intros H; inversion H; subst; [|exact Hg].
  apply (infix_trans _ _ _ (strip_infix _)).
  apply (infix_trans _ _ _ (search_pre_infix _ _ _ _ S)), Hg.
Qed.

Lemma span1_trimmed (response_text w : str) :
  span1 response_text = Some w -> Py.strip w = w.
Proof.
  unfold span1.
  destruct (search true re_fence_html response_text) as [m|]; [|discriminate].
  destruct (search true re_break_lead_in (Py.strip (group1 m)));
    intros H; inversion H; apply strip_idem.
Qed.

Lemma span2_infix (response_text w : str) :
  span2 response_text = Ok (Some w) -> infix w response_text.
Proof.
  unfold span2.
  destruct (search true re_html_doc response_text) as [m|] eqn:E;
    [|discriminate].
  destruct (index0 _) as [piece|e] eqn:P; simpl; [|discriminate].
  intros H; inversion H; subst.
  apply (infix_trans _ _ _ (strip_infix _)).
  apply (infix_trans _ _ _ (split_piece_infix _ _ P)).
  apply (infix_trans _ _ _ (strip_infix _)), (search_group_infix _ _ _ _ E).
Qed.

Lemma span3_infix (response_text w : str) :
  span3 response_text = Ok (Some w) ->
  infix w response_text /\ Py.contains (lit "<") w = true.
Proof.
  unfold span3.
  destruct (search false re_fence_any response_text) as [m|] eqn:E;
    [|discriminate].
  destruct (index0 _) as [piece|e] eqn:P; simpl; [|discriminate].
  destruct (looks_like_html (Py.strip piece)) eqn:G; [|discriminate].
  intros H; inversion H; subst. split.
  - apply (infix_trans _ _ _ (strip_infix _)).
    apply (infix_trans _ _ _ (split_piece_infix _ _ P)).
    apply (infix_trans _ _ _ (strip_infix _)), (search_group_infix _ _ _ _ E).
  - unfold looks_like_html in G. now apply andb_prop in G as [G _].
Qed.

Lemma cut_at_first_infix (patterns : list re) (s : str) :
  infix (cut_at_first patterns s) s.
Proof.
  induction patterns as [|pattern rest IH]; simpl; [apply infix_refl|].
  destruct (search true pattern s) as [m|] eqn:E; [|exact IH].
  apply (infix_trans _ _ _ (strip_infix _)), (search_pre_infix _ _ _ _ E).
Qed.

Lemma span5_infix (response_text w : str) :
  span5 response_text = Some w -> infix w response_text.
Proof.
  assert (Hc : infix (cut_at_first html_end_patterns (Py.strip response_text))
                     response_text).
  { apply (infix_trans _ _ _ (cut_at_first_infix _ _)), strip_infix. }
  unfold span5.
  destruct (Py.startswith _ _); [|discriminate].
  destruct (_ && _); [|discriminate].
  intros H; inversion H; subst. exact Hc.
Qed.

(** ** Lines *)

Lemma split_nl_nonempty (s : str) : Py.split_nl s <> [].
Proof.
  destruct s as [|c s]; simpl; [discriminate|].
  destruct (Py.eqc c Py.nl); [discriminate|].
  destruct (Py.split_nl s); discriminate.
Qed.

Lemma join_cons_first (c : char) (ls : list str) :
  ls <> [] -> Py.join_nl (Py.cons_first c ls) = c :: Py.join_nl ls.
Proof.
  destruct ls as [|p [|q ps]]; [congruence| |]; reflexivity.
Qed.

(** Splitting a text into lines and joining them gives the text back. *)
Lemma join_split (s : str) : Py.join_nl (Py.split_nl s) = s.
Proof.
  induction s as [|c s IH]; [reflexivity|]. simpl.
  destruct (Py.eqc c Py.nl) eqn:E.
  - apply eqc_eq in E. subst c.
    destruct (Py.split_nl s) as [|p ps] eqn:S;
      [now apply split_nl_nonempty in S|].
    change (Py.join_nl ([] :: p :: ps)) with (Py.nl :: Py.join_nl (p :: ps)).
    now rewrite IH.
  - rewrite join_cons_first by apply split_nl_nonempty. now rewrite IH.
Qed.

Lemma join_app (a b : list str) :
  a <> [] -> b <> [] ->
  Py.join_nl (a ++ b) = Py.join_nl a ++ Py.nl :: Py.join_nl b.
Proof.
  intros Ha Hb. induction a as [|x a IH]; [congruence|].
  destruct a as [|y a].
  - destruct b as [|z b]; [congruence|]. reflexivity.
  - change (Py.join_nl ((x :: y :: a) ++ b))
      with (x ++ Py.nl :: Py.join_nl ((y :: a) ++ b)).
    rewrite IH by discriminate.
    change (Py.join_nl (x :: y :: a)) with (x ++ Py.nl :: Py.join_nl (y :: a)).
    now rewrite <- app_assoc.
Qed.

Lemma join_infix (a k b : list str) :
  infix (Py.join_nl k) (Py.join_nl (a ++ k ++ b)).
Proof.
  destruct k as [|k1 k]; [apply infix_nil|].
  assert (Hk : k1 :: k <> []) by discriminate.
  destruct a as [|a1 a]; destruct b as [|b1 b]; simpl app.
  - rewrite app_nil_r. apply infix_refl.
  - change (k1 :: k ++ b1 :: b) with ((k1 :: k) ++ b1 :: b).
    rewrite join_app by (auto; discriminate). apply infix_prefix.
  - rewrite app_nil_r.
    change (a1 :: a ++ k1 :: k) with ((a1 :: a) ++ k1 :: k).
    rewrite join_app by (auto; discriminate).
    exists (Py.join_nl (a1 :: a) ++ [Py.nl]), [].
    now rewrite app_nil_r, <- app_assoc.
  - change (a1 :: a ++ k1 :: k ++ b1 :: b)
      with ((a1 :: a) ++ (k1 :: k) ++ b1 :: b).
    rewrite join_app; [|discriminate|discriminate].
    rewrite join_app by (auto; discriminate).
    exists (Py.join_nl (a1 :: a) ++ [Py.nl]), (Py.nl :: Py.join_nl (b1 :: b)).
    now rewrite <- !app_assoc.
Qed.

Lemma join_firstn_infix (n : nat) (s : str) :
  infix (Py.join_nl (firstn n (Py.split_nl s))) s.
Proof.
  rewrite <- (join_split s) at 2.
  rewrite <- (firstn_skipn n (Py.split_nl s)) at 2.
  apply (join_infix [] _ _).
Qed.

Lemma span4_infix (response_text w : str) :
  span4 response_text = Some w -> infix w response_text.
Proof.
  unfold span4.
  destruct (search false re_tag_span response_text) as [m|] eqn:E;
    [|discriminate].
  intros H; inversion H; subst.
  apply (infix_trans _ _ _ (strip_infix _)).
  apply (infix_trans _ _ _ (join_firstn_infix _ _)).
  apply (infix_trans _ _ _ (strip_infix _)), (search_group_infix _ _ _ _ E).
Qed.

(** ** The line filter of the fallback *)

Lemma lower_lt (c : char) : In lt (Py.lower_text c) -> c = lt.
Proof.
  unfold Py.lower_text. destruct (c =? 304)%N.
  - intros [H|[H|[]]]; discriminate H.
  - intros [H|[]]. apply lower_char_inv; [exact H|left; reflexivity].
Qed.

Lemma lower_no_lt (line : str) : In lt (Py.lower line) -> In lt line.
Proof.
  unfold Py.lower. rewrite in_flat_map. intros (c & Hin & Hc).
  apply lower_lt in Hc. now subst.
Qed.

(** The test against [html_tokens] is made only on lines without a [<], and
    there it always fails. *)
Lemma tokens_need_lt (line : str) :
  Py.contains (lit "<") line = false ->
  Py.any_in html_tokens (Py.lower line) = false.
Proof.
  intros H. apply no_lt in H.
  destruct (Py.any_in html_tokens (Py.lower line)) eqn:E; [|reflexivity].
  exfalso. apply H, lower_no_lt.
  unfold Py.any_in in E. apply existsb_exists in E as (t & Ht & Hc).
  apply contains_infix in Hc. apply (infix_In _ _ _ Hc).
  simpl in Ht.
  repeat (destruct Ht as [<-|Ht]; [now left|]). contradiction.
Qed.

Lemma is_empty_nil (s : str) : is_empty s = true <-> s = [].
Proof. destruct s; simpl; split; congruence. Qed.

Lemma collect_true (lines : list str) :
  exists rest,
    lines = collect_lines true lines ++ rest /\
    Forall markup_line (collect_lines true lines) /\
    (forall line more, rest = line :: more -> plain_line line).
Proof.
  induction lines as [|line lines (rest & Hl & Hk & Hr)]; cbn [collect_lines].
  - exists []. split; [reflexivity|]. split; [constructor|].
    intros line more H. discriminate H.
  - destruct (Py.contains (lit "<") line) eqn:E1.
    + exists rest. split; [simpl; congruence|]. split; [|exact Hr].
      constructor; [left; exact E1|exact Hk].
    + rewrite (tokens_need_lt _ E1).
      destruct (Py.contains (lit ">") line) eqn:E2; cbn [orb].
      * exists rest. split; [simpl; congruence|]. split; [|exact Hr].
        constructor; [right; left; exact E2|exact Hk].
      * destruct (Py.startswith (lit "<!--") (Py.strip line)
                  || is_empty (Py.strip line)) eqn:E3.
        -- exists rest. split; [simpl; congruence|]. split; [|exact Hr].
           constructor; [|exact Hk].
           apply orb_prop in E3 as [E3|E3].
           ++ exfalso. apply (no_lt _ E1).
              apply startswith_prefix in E3 as (b & Hb).
              apply (infix_In _ _ _ (strip_infix line)). rewrite Hb. now left.
           ++ right. right. now apply is_empty_nil.
        -- exists (line :: lines). split; [reflexivity|].
           split; [constructor|].
           intros l more H. inversion H; subst.
           apply orb_false_elim in E3 as [_ E3].
           split; [exact E1|]. split; [exact E2|].
           intros Hn. apply is_empty_nil in Hn. congruence.
Qed.


Lemma collected_lines_block (lines : list str) :
  exists skipped rest, lines = skipped ++ collect_lines false lines ++ rest.
Proof.
  induction lines as [|line lines (skipped & rest & Hl)]; cbn [collect_lines].
  - now exists [], [].
  - destruct (Py.contains (lit "<") line) eqn:E1.
    + destruct (collect_true lines) as (rest' & Hl' & _).
      exists [], rest'. simpl. congruence.
    + exists (line :: skipped), rest. simpl. congruence.
Qed.

Lemma span6_infix (response_text w : str) :
  span6 response_text = Some w -> infix w response_text.
Proof.
  unfold span6. destruct (_ && _); [|discriminate].
  destruct (collected_lines_block (Py.split_nl response_text))
    as (skipped & rest & Hl).
  assert (Hj : infix (Py.join_nl (collect_lines false (Py.split_nl response_text)))
                     response_text).
  { rewrite <- (join_split response_text) at 2. rewrite Hl at 2.
    apply join_infix. }
  destruct (collect_lines false (Py.split_nl response_text)); [discriminate|].
  intros H; inversion H; subst.
  apply (infix_trans _ _ _ (strip_infix _)), Hj.
Qed.

(** The span a strategy selects, before any cleanup, is a contiguous piece
    of the response: nothing in it is made up. *)
Theorem selected_is_excerpt (response_text : str) (k : nat) (w : str) :
  selected response_text = Ok (k, w) -> infix w response_text.
Proof.
  unfold selected.
  destruct (span1 response_text) as [w1|] eqn:E1.
  { intros H; inversion H; subst. exact (span1_infix _ _ E1). }
  destruct (span2 response_text) as [[w2|]|] eqn:E2; simpl; [| |discriminate].
  { intros H; inversion H; subst. exact (span2_infix _ _ E2). }
  destruct (span3 response_text) as [[w3|]|] eqn:E3; simpl; [| |discriminate].
  { intros H; inversion H; subst. exact (proj1 (span3_infix _ _ E3)). }
  destruct (span4 response_text) as [w4|] eqn:E4.
  { intros H; inversion H; subst. exact (span4_infix _ _ E4). }
  destruct (span5 response_text) as [w5|] eqn:E5.
  { intros H; inversion H; subst. exact (span5_infix _ _ E5). }
  destruct (span6 response_text) as [w6|] eqn:E6;
    intros H; inversion H; subst; [exact (span6_infix _ _ E6)|apply infix_refl].
Qed.

Lemma selected_is_excerpt_witness :
  infix (lit "<div>a</div>") two_elements.
Proof.
  exact (selected_is_excerpt two_elements 4 (lit "<div>a</div>") eq_refl).
Defined.


(** ** The prompt *)

Section PromptFacts.

Variable payload : Type.
Variable is_falsy : payload -> bool.
Variable json_dumps : payload -> result str.

(** The rendering instructions are in the prompt as they were given, and so
    is the serialised payload when the prompt is that of an app. *)
Theorem prompt_carries_request (data : payload) (render_prompt : str)
    (is_user_prompt : bool) (prompt : str) :
  build_prompt payload is_falsy json_dumps data render_prompt is_user_prompt
    = Ok prompt ->
  infix render_prompt prompt /\
  (is_user_prompt = false -> is_falsy data = false ->
   exists dumped, json_dumps data = Ok dumped /\ infix dumped prompt).
Proof.
  unfold build_prompt. destruct is_user_prompt; cbn [orb].
  - destruct (has_style_preservation render_prompt);
      intros H; inversion H; subst;
      (split; [|intros Hu; discriminate Hu]).
    + now exists user_head, user_style_tail.
    + now exists user_head, user_tail.
  - destruct (is_falsy data).
    + destruct (has_style_preservation render_prompt);
        intros H; inversion H; subst;
        (split; [|intros _ Hf; discriminate Hf]).
      * now exists user_head, user_style_tail.
      * now exists user_head, user_tail.
    + destruct (has_style_preservation render_prompt);
        destruct (json_dumps data) as [dumped|e]; cbn [bind];
        try discriminate; intros H; inversion H; subst;
        (split; [|intros _ _; exists dumped; split; [reflexivity|]]).
      * exists (app_head ++ dumped ++ app_mid), app_style_tail.
        now rewrite <- !app_assoc.
      * now exists app_head, (app_mid ++ render_prompt ++ app_style_tail).
      * exists (app_head ++ dumped ++ app_mid), app_tail.
        now rewrite <- !app_assoc.
      * now exists app_head, (app_mid ++ render_prompt ++ app_tail).
Qed.

(** The payload is serialised only for an app with a non-empty payload:
    there a failure of the serialisation is the failure of the prompt, and
    everywhere else the prompt is built whatever the payload. *)
Theorem prompt_serialises_for_apps_only (data : payload) (render_prompt : str)
    (is_user_prompt : bool) :
  (is_user_prompt || is_falsy data = true ->
   exists prompt,
     build_prompt payload is_falsy json_dumps data render_prompt is_user_prompt
       = Ok prompt /\
     forall (other : payload -> result str),
       build_prompt payload is_falsy other data render_prompt is_user_prompt
         = Ok prompt) /\
  (is_user_prompt || is_falsy data = false ->
   forall e, json_dumps data = Raise e ->
     build_prompt payload is_falsy json_dumps data render_prompt is_user_prompt
       = Raise e).
Proof.
  unfold build_prompt. split; intros ->.
  - destruct (has_style_preservation render_prompt); eauto.
  - intros e ->. destruct (has_style_preservation render_prompt); reflexivity.
Qed.

End PromptFacts.

Lemma prompt_carries_request_witness :
  infix (lit "show it") (user_head ++ lit "show it" ++ user_tail).
Proof.
  exact (proj1 (prompt_carries_request unit (fun _ => true) (fun _ => Ok [])
                  tt (lit "show it") true _ eq_refl)).
Defined.

Lemma prompt_serialises_for_apps_only_witness :
  build_prompt unit (fun _ => false) (fun _ => Raise IndexError)
    tt (lit "show it") false = Raise IndexError.
Proof.
  exact (proj2 (prompt_serialises_for_apps_only unit (fun _ => false)
                  (fun _ => Raise IndexError) tt (lit "show it") false)
               eq_refl IndexError eq_refl).
Defined.

(** ** The refresh prompt *)

Lemma quote_prefix (style_tags : list str) :
  forall acc, exists rest,
    fold_left (fun si style_content => si ++ Py.strip style_content ++ [Py.nl])
      style_tags acc = acc ++ rest.
Proof.
  induction style_tags as [|c l IH]; intros acc; simpl.
  - exists []. now rewrite app_nil_r.
  - destruct (IH (acc ++ Py.strip c ++ [Py.nl])) as (rest & ->).
    eexists. rewrite <- app_assoc. reflexivity.
Qed.

Lemma quote_infix (style_tags : list str) (c : str) :
  In c style_tags ->
  forall acc,
    infix (Py.strip c ++ [Py.nl])
      (fold_left (fun si style_content => si ++ Py.strip style_content ++ [Py.nl])
         style_tags acc).
Proof.
  induction style_tags as [|x l IH]; intros Hin acc; [contradiction|].
  simpl. destruct Hin as [->|Hin]; [|now apply IH].
  destruct (quote_prefix l (acc ++ Py.strip c ++ [Py.nl])) as (rest & ->).
  exists acc, rest. now rewrite <- app_assoc.
Qed.

Lemma style_instruction_rules (style_tags : list str) :
  exists extra, style_instruction style_tags = preservation_rules ++ extra.
Proof.
  destruct style_tags as [|c l].
  - exists []. unfold style_instruction. now rewrite app_nil_r.
  - unfold style_instruction. cbv zeta.
    destruct (quote_prefix (c :: l)
                ((preservation_rules ++
                  Py.nl :: lit "CURRENT WIDGET STYLES (preserve these):" ++ [Py.nl])
                 ++ lit "```css" ++ [Py.nl])) as (rest & ->).
    eexists. rewrite <- !app_assoc. reflexivity.
Qed.

Lemma rules_marker :
  preservation_rules =
  [Py.nl; Py.nl] ++ lit "CRITICAL STYLE PRESERVATION" ++ skipn 29 preservation_rules.
Proof. vm_compute. reflexivity. Qed.

Lemma enhanced_prompt_marked (original_prompt current_html : str) :
  has_style_preservation (enhanced_prompt original_prompt current_html) = true.
Proof.
  unfold has_style_preservation, enhanced_prompt. apply orb_true_iff. left.
  apply contains_infix.
  destruct (style_instruction_rules
              (findall_groups true re_style_content current_html))
    as (extra & ->).
  rewrite rules_marker.
  exists (original_prompt ++ [Py.nl; Py.nl]),
         (skipn 29 preservation_rules ++ extra).
  now rewrite <- !app_assoc.
Qed.

(** The prompt a refresh builds always asks for the styles to be preserved:
    [generate_widget_html] answers it with the style-preservation wording,
    for a user widget and for an app widget alike. *)
Theorem refresh_preserves_styles (payload : Type) (is_falsy : payload -> bool)
    (json_dumps : payload -> result str) (data : payload)
    (original_prompt current_html : str) :
  build_prompt payload is_falsy json_dumps data
    (enhanced_prompt original_prompt current_html) true
  = Ok (user_head ++ enhanced_prompt original_prompt current_html
        ++ user_style_tail) /\
  build_prompt payload is_falsy json_dumps data
    (enhanced_prompt original_prompt current_html) false
  = (if is_falsy data
     then Ok (user_head ++ enhanced_prompt original_prompt current_html
              ++ user_style_tail)
     else dumped <- json_dumps data ;;
          Ok (app_head ++ dumped ++ app_mid ++
              enhanced_prompt original_prompt current_html ++ app_style_tail)).
Proof.
  unfold build_prompt. rewrite enhanced_prompt_marked. cbn [orb].
  split; [reflexivity|]. destruct (is_falsy data); reflexivity.
Qed.

Lemma findall_groups_infix (ic : bool) (r : re) (s : str) :
  forall skip c, In c (findall_groups_aux ic r skip s) -> infix c s.
Proof.
  induction s as [|x s IH]; intros skip c; cbn [findall_groups_aux];
    [contradiction|].
  assert (Hs : forall n, In c (findall_groups_aux ic r n s) -> infix c (x :: s)).
  { intros n H. apply (infix_trans _ _ _ (IH _ _ H)).
    apply (infix_suffix [x] s). }
  destruct skip as [|n]; [|apply Hs].
  destruct (match_here ic r (x :: s)) as [[g rest]|] eqn:E; [|apply Hs].
  destruct (length (x :: s) - length rest); [apply Hs|].
  intros [<-|H]; [|exact (Hs _ H)].
  destruct (match_here_sound _ _ _ _ _ E) as (u & Hu & L).
  destruct (lang_group _ _ _ _ _ L) as [->|(c1 & -> & Hc)]; [apply infix_nil|].
  apply (infix_trans _ _ _ Hc). rewrite Hu. apply infix_prefix.
Qed.

Lemma findall_groups_plain (ic : bool) (r : re) (s : str) :
  starts_lt ic r -> ~ In lt s -> findall_groups_aux ic r 0 s = [].
Proof.
  intros Hr. induction s as [|x s IH]; intros Hs; [reflexivity|].
  cbn [findall_groups_aux].
  destruct (match_here ic r (x :: s)) as [[g rest]|] eqn:E.
  - destruct (match_here_sound _ _ _ _ _ E) as (u & Hu & L).
    destruct (Hr _ _ _ L) as (u' & ->). inversion Hu; subst.
    exfalso. apply Hs. now left.
  - apply IH. intros H. apply Hs. now right.
Qed.

Lemma lt_style_content : starts_lt true re_style_content.
Proof. apply starts_lt_cat, (starts_lt_lit true (lit "style")). Qed.

(** Every style text the refresh captures is a piece of the widget's current
    HTML and is quoted, trimmed and on lines of its own, in the prompt; when
    the current HTML has no [<] at all the prompt is the stored prompt
    followed by the fixed rules. *)
Theorem refresh_quotes_styles (original_prompt current_html : str) :
  (forall style_content,
     In style_content (findall_groups true re_style_content current_html) ->
     infix style_content current_html /\
     infix (Py.strip style_content ++ [Py.nl])
           (enhanced_prompt original_prompt current_html)) /\
  (Py.contains (lit "<") current_html = false ->
   enhanced_prompt original_prompt current_html =
   original_prompt ++ preservation_rules).
Proof.
  split.
  - intros c Hin. split; [exact (findall_groups_infix _ _ _ _ _ Hin)|].
    unfold enhanced_prompt.
    apply (infix_trans _ (style_instruction
                            (findall_groups true re_style_content current_html)));
      [|apply infix_suffix].
    unfold style_instruction.
    destruct (findall_groups true re_style_content current_html) as [|x l] eqn:E;
      [contradiction|]. cbv zeta.
    match goal with
    | |- infix _ ((fold_left _ ?tags ?acc ++ ?a) ++ ?b) =>
        apply (infix_trans _ _ _ (quote_infix tags c Hin acc));
        exists [], (a ++ b); rewrite <- app_assoc; reflexivity
    end.
  - intros H. apply no_lt in H. unfold enhanced_prompt, findall_groups.
    now rewrite (findall_groups_plain true _ _ lt_style_content H).
Qed.

Lemma refresh_quotes_styles_witness :
  infix (lit ".a{}" ++ [Py.nl])
        (enhanced_prompt (lit "P") (lit "<style> .a{} </style><div/>")).
Proof.
  exact (proj2 (proj1 (refresh_quotes_styles (lit "P")
                         (lit "<style> .a{} </style><div/>"))
                  (lit " .a{} ") (or_introl eq_refl))).
Defined.

(** ** The database name *)

Lemma greedy_run (ic : bool) (A : Type) (cs : cset) (u s' : str)
    (k : str -> option A) (x : A) :
  forallb (in_cset ic cs) u = true ->
  (forall c t, s' = c :: t -> in_cset ic cs c = false) ->
  k s' = Some x ->
  greedy_star ic cs (u ++ s') k = Some x.
Proof.
  intros Hu Hs Hk. induction u as [|c u IH]; simpl in *.
  - destruct s' as [|c t]; simpl; [exact Hk|].
    now rewrite (Hs c t eq_refl).
  - apply andb_prop in Hu as [-> Hu]. now rewrite (IH Hu).
Qed.

Lemma not_in_run (c : char) (u : str) :
  ~ In c u -> forallb (in_cset false (Not c)) u = true.
Proof.
  induction u as [|b u IH]; intros H; [reflexivity|].
  cbn [forallb in_cset]. rewrite IH by (intros Hin; apply H; now right).
  unfold chr_eq. destruct (Py.eqc c b) eqn:E; [|reflexivity].
  apply eqc_eq in E. subst. exfalso. apply H. now left.
Qed.

Lemma stops_at (c : char) : in_cset false (Not c) c = false.
Proof.
  cbn [in_cset]. unfold chr_eq. now rewrite (proj2 (eqc_eq c c) eq_refl).
Qed.

Lemma plus_run (A : Type) (c : char) (u s' : str) (g : option str)
    (k : str -> option str -> option A) (x : A) :
  u <> [] -> ~ In c u ->
  (s' = [] \/ exists t, s' = c :: t) ->
  k s' g = Some x ->
  mt false (Plus (Not c)) (u ++ s') g k = Some x.
Proof.
  intros Hne Hu Hs Hk. destruct u as [|b u]; [congruence|].
  pose proof (not_in_run c _ Hu) as Hrun. cbn [forallb] in Hrun.
  apply andb_prop in Hrun as [Hb Hrun].
  cbn [mt app]. rewrite Hb.
  apply greedy_run; auto.
  intros d t Hd. destruct Hs as [->|(t' & ->)]; [discriminate|].
  inversion Hd; subst. apply stops_at.
Qed.

Lemma mt_cat (ic : bool) (A : Type) (r1 r2 : re) (s : str) (g : option str)
    (k : str -> option str -> option A) :
  mt ic (r1 @@ r2) s g k = mt ic r1 s g (fun s' g' => mt ic r2 s' g' k).
Proof. reflexivity. Qed.

Lemma mt_lit (ic : bool) (A : Type) (p s s' : str) (g : option str)
    (k : str -> option str -> option A) :
  eat ic p s = Some s' -> mt ic (Lit p) s g k = k s' g.
Proof. intros H. cbn [mt]. now rewrite H. Qed.

Lemma mt_lit_fail (ic : bool) (A : Type) (p s : str) (g : option str)
    (k : str -> option str -> option A) :
  eat ic p s = None -> mt ic (Lit p) s g k = None.
Proof. intros H. cbn [mt]. now rewrite H. Qed.

Lemma mt_alt (ic : bool) (A : Type) (r1 r2 : re) (s : str) (g : option str)
    (k : str -> option str -> option A) :
  mt ic (Alt r1 r2) s g k =
  match mt ic r1 s g k with
  | Some x => Some x
  | None => mt ic r2 s g k
  end.
Proof. reflexivity. Qed.

Lemma mt_grp (ic : bool) (A : Type) (r : re) (s : str) (g : option str)
    (k : str -> option str -> option A) :
  mt ic (Grp r) s g k =
  mt ic r s g (fun s' _ => k s' (Some (firstn (length s - length s') s))).
Proof. reflexivity. Qed.

Lemma db_uri_match (scheme host name tail : str) :
  scheme = lit "mongodb://" \/ scheme = lit "mongodb+srv://" ->
  host <> [] -> ~ In slash host ->
  name <> [] -> ~ In qmark name ->
  (tail = [] \/ exists t, tail = qmark :: t) ->
  match_here false re_db_uri (scheme ++ host ++ slash :: name ++ tail) =
  Some (Some name, tail).
Proof.
  intros Hscheme Hh Hhs Hn Hns Ht.
  pose (k0 := fun (s' : str) (g' : option str) => Some (g', s')).
  assert (Hgrp : forall (g : option str),
            mt false (Lit (lit "/") @@ Grp (Plus (Not qmark)))
               (slash :: name ++ tail) g k0 = Some (Some name, tail)).
  { intros g. rewrite mt_cat.
    rewrite (mt_lit false _ (lit "/") _ (name ++ tail)) by reflexivity.
    rewrite mt_grp.
    apply plus_run; [exact Hn|exact Hns|exact Ht|].
    unfold k0. now rewrite firstn_consumed. }
  assert (Hhost : forall (g : option str),
            mt false (Plus (Not slash) @@ Lit (lit "/") @@ Grp (Plus (Not qmark)))
               (host ++ slash :: name ++ tail) g k0 = Some (Some name, tail)).
  { intros g. rewrite mt_cat.
    apply plus_run; [exact Hh|exact Hhs|right; eauto|apply (Hgrp g)]. }
  assert (Hsep : forall (g : option str),
            mt false (Lit (lit "://") @@ Plus (Not slash) @@ Lit (lit "/") @@
                      Grp (Plus (Not qmark)))
               (lit "://" ++ host ++ slash :: name ++ tail) g k0
            = Some (Some name, tail)).
  { intros g. rewrite mt_cat.
    rewrite (mt_lit false _ (lit "://") _ (host ++ slash :: name ++ tail))
      by reflexivity.
    apply (Hhost g). }
  unfold match_here, re_db_uri. fold k0.
  destruct Hscheme as [-> | ->]; rewrite mt_cat.
  - rewrite (mt_lit false _ (lit "mongodb") _
               (lit "://" ++ host ++ slash :: name ++ tail)) by reflexivity.
    rewrite mt_cat, mt_alt.
    rewrite (mt_lit_fail false _ (lit "+srv")) by reflexivity.
    rewrite (mt_lit false _ [] _ (lit "://" ++ host ++ slash :: name ++ tail))
      by reflexivity.
    apply (Hsep None).
  - rewrite (mt_lit false _ (lit "mongodb") _
               (lit "+srv://" ++ host ++ slash :: name ++ tail)) by reflexivity.
    rewrite mt_cat, mt_alt.
    rewrite (mt_lit false _ (lit "+srv") _
               (lit "://" ++ host ++ slash :: name ++ tail)) by reflexivity.
    now rewrite (Hsep None).
Qed.

(** A URI [mongodb://host/name] or [mongodb+srv://host/name], with or
    without options after a [?], names the database: the name in the URI is
    used, not the configured one. *)
Theorem db_name_from_uri (scheme host name tail dflt : str) :
  scheme = lit "mongodb://" \/ scheme = lit "mongodb+srv://" ->
  host <> [] -> ~ In slash host ->
  name <> [] -> ~ In qmark name ->
  (tail = [] \/ exists t, tail = qmark :: t) ->
  db_name (scheme ++ host ++ slash :: name ++ tail) dflt = name.
Proof.
  intros Hscheme Hh Hhs Hn Hns Ht. unfold db_name.
  rewrite search_eq, (db_uri_match _ _ _ _ Hscheme Hh Hhs Hn Hns Ht).
  reflexivity.
Qed.

Lemma db_name_from_uri_witness :
  db_name (lit "mongodb+srv://" ++ lit "u:p@cluster0.example.net" ++
           slash :: lit "dashboard" ++ lit "?retryWrites=true")
          (lit "ai_dashboard") = lit "dashboard".
Proof.
  apply db_name_from_uri.
  - right. reflexivity.
  - discriminate.
  - vm_compute. intuition discriminate.
  - discriminate.
  - vm_compute. intuition discriminate.
  - right. eexists. reflexivity.
Defined.

Lemma lit_eq_exact (p u : str) : lit_eq false p u = true -> u = p.
Proof.
  revert u. induction p as [|a p IH]; intros [|b u] H; simpl in H;
    try discriminate; [reflexivity|].
  apply andb_prop in H as [E H]. unfold chr_eq in E. apply eqc_eq in E.
  subst. f_equal. auto.
Qed.

Lemma count_app (c : char) (a b : str) :
  count_occ N.eq_dec (a ++ b) c = count_occ N.eq_dec a c + count_occ N.eq_dec b c.
Proof. apply count_occ_app. Qed.

Lemma db_uri_slashes (u : str) (g g' : option str) :
  lang false re_db_uri u g g' -> 3 <= count_occ N.eq_dec u slash.
Proof.
  unfold re_db_uri. cbn [lang].
  intros (u1 & r1 & g1 & -> & _ & u2 & r2 & g2 & -> & _ &
          u3 & r3 & g3 & -> & [H3 _] & u4 & r4 & g4 & -> & _ &
          u5 & r5 & g5 & -> & [H5 _] & _).
  apply lit_eq_exact in H3, H5. subst.
  rewrite !count_app.
  change (count_occ N.eq_dec (lit "://") slash) with 2.
  change (count_occ N.eq_dec (lit "/") slash) with 1. lia.
Qed.

Lemma lstrip_chars_split (chars s : str) :
  exists dropped, s = dropped ++ lstrip_chars chars s.
Proof.
  induction s as [|c s (d & IH)]; simpl.
  - now exists [].
  - destruct (existsb (Py.eqc c) chars).
    + exists (c :: d). simpl. congruence.
    + now exists [].
Qed.

Lemma rstrip_chars_split (chars s : str) :
  exists dropped, s = rstrip_chars chars s ++ dropped.
Proof.
  unfold rstrip_chars. destruct (lstrip_chars_split chars (rev s)) as (d & H).
  exists (rev d). rewrite <- rev_app_distr, <- H. now rewrite rev_involutive.
Qed.

Lemma normalized_trailing_slash (uri : str) :
  mongodb_uri_normalized (uri ++ [slash]) = mongodb_uri_normalized uri.
Proof.
  unfold mongodb_uri_normalized, rstrip_chars.
  rewrite rev_app_distr. reflexivity.
Qed.

(** A URI with at most two [/] (the two of the scheme: no path) leaves the
    configured database name in place, and so does such a URI with a [/]
    at its end once the configuration has normalised it. *)
Theorem db_name_default (uri dflt : str) :
  count_occ N.eq_dec uri slash <= 2 ->
  db_name uri dflt = dflt /\
  db_name (mongodb_uri_normalized (uri ++ [slash])) dflt = dflt.
Proof.
  assert (H : forall s, count_occ N.eq_dec s slash <= 2 -> db_name s dflt = dflt).
  { intros s Hs. unfold db_name.
    destruct (search false re_db_uri s) as [m|] eqn:E; [|reflexivity].
    destruct (search_sound _ _ _ _ E) as [Hm L].
    apply db_uri_slashes in L. rewrite Hm, !count_app in Hs. lia. }
  intros Hc. split; [now apply H|].
  rewrite normalized_trailing_slash. apply H.
  destruct (rstrip_chars_split (lit "/") uri) as (d & Hd).
  fold (mongodb_uri_normalized uri) in Hd.
  rewrite Hd, count_app in Hc. lia.
Qed.

Lemma db_name_default_witness :
  db_name (mongodb_uri_normalized (lit "mongodb://localhost:27017" ++ [slash]))
          (lit "ai_dashboard") = lit "ai_dashboard".
Proof.
  apply (db_name_default (lit "mongodb://localhost:27017") (lit "ai_dashboard")).
  vm_compute. lia.
Defined.

(** ** Where a lazy repetition stops *)

Lemma lazy_minimal (ic : bool) (A : Type) (cs : cset) (s : str)
    (k : str -> option A) (x : A) :
  lazy_star ic cs s k = Some x ->
  exists u s',
    s = u ++ s' /\ k s' = Some x /\
    forall u1 u2, u = u1 ++ u2 -> u2 <> [] -> k (u2 ++ s') = None.
Proof.
  induction s as [|c s IH]; simpl; intros H.
  - destruct (k []) eqn:K; [|discriminate]. inversion H; subst.
    exists [], []. repeat split; auto.
    intros u1 u2 Hu Hne. symmetry in Hu. apply app_eq_nil in Hu as [_ ->].
    congruence.
  - destruct (k (c :: s)) eqn:K.
    + inversion H; subst. exists [], (c :: s). repeat split; auto.
      intros u1 u2 Hu Hne. symmetry in Hu. apply app_eq_nil in Hu as [_ ->].
      congruence.
    + destruct (in_cset ic cs c); [|discriminate].
      destruct (IH H) as (u & s' & -> & Hk & Hmin).
      exists (c :: u), s'. repeat split; auto.
      intros u1 u2 Hu Hne. destruct u1 as [|d u1].
      * simpl in Hu. subst u2. exact K.
      * inversion Hu; subst. exact (Hmin u1 u2 eq_refl Hne).
Qed.

Lemma mt_lit_inv (ic : bool) (A : Type) (p s : str) (g : option str)
    (k : str -> option str -> option A) (x : A) :
  mt ic (Lit p) s g k = Some x ->
  exists u s', s = u ++ s' /\ lit_eq ic p u = true /\ k s' g = Some x.
Proof.
  cbn [mt]. destruct (eat ic p s) as [s'|] eqn:E; [|discriminate].
  intros H. destruct (eat_sound _ _ _ _ E) as (u & -> & Hu). eauto.
Qed.

Lemma mt_star (ic : bool) (A : Type) (cs : cset) (s : str) (g : option str)
    (k : str -> option str -> option A) :
  mt ic (Star cs) s g k = greedy_star ic cs s (fun s' => k s' g).
Proof. reflexivity. Qed.

Lemma mt_lazy (ic : bool) (A : Type) (cs : cset) (s : str) (g : option str)
    (k : str -> option str -> option A) :
  mt ic (Lazy cs) s g k = lazy_star ic cs s (fun s' => k s' g).
Proof. reflexivity. Qed.

Lemma search_hit (ic : bool) (r : re) (s : str) (m : rmatch) :
  search ic r s = Some m ->
  exists s0, match_here ic r s0 = Some (m_group m, m_post m).
Proof.
  revert m. induction s as [|c s IH]; intros m H; rewrite search_eq in H;
    destruct (match_here ic r _) as [[g rest]|] eqn:E.
  - inversion H; subst. eauto.
  - discriminate.
  - inversion H; subst. eauto.
  - destruct (search ic r s) as [m'|] eqn:S; [|discriminate].
    inversion H; subst. exact (IH _ eq_refl).
Qed.

(** The group of the fenced [html] pattern stops at the first fence. *)
Lemma fence_group_clean (s rest : str) (g : option str) :
  match_here true re_fence_html s = Some (g, rest) ->
  exists u, g = Some u /\ ~ infix fence u.
Proof.
  unfold match_here, re_fence_html. rewrite mt_cat. intros H.
  apply mt_lit_inv in H as (f & s1 & -> & _ & H).
  rewrite mt_cat, mt_star in H.
  apply greedy_sound in H as (w1 & s2 & -> & _ & H).
  rewrite mt_cat, mt_grp, mt_lazy in H.
  apply lazy_minimal in H as (u & s3 & -> & Hk & Hmin).
  rewrite firstn_consumed in Hk.
  apply mt_sound in Hk as (v & s4 & g' & -> & L & Hk).
  inversion Hk; subst.
  destruct L as (v1 & v2 & gm & -> & [_ ->] & [_ ->]).
  exists u. split; [reflexivity|].
  intros (a & b & ->).
  assert (Hne : fence ++ b <> []) by discriminate.
  specialize (Hmin a (fence ++ b) eq_refl Hne).
  assert (Hfence : forall (gv : option str) (tl : str), exists y,
            mt true (Star Space @@ Lit (lit "```")) (fence ++ tl) gv
               (fun s' g' => Some (g', s')) = Some y).
  { intros gv tl.
    apply (mt_complete true _ _ fence tl gv gv (fun s' g' => Some (g', s'))
             (gv, tl)); [|reflexivity].
    exists [], fence, gv. repeat split; reflexivity. }
  rewrite <- app_assoc in Hmin.
  match type of Hmin with
  | mt _ _ (fence ++ ?tl) ?gv _ = None =>
      destruct (Hfence gv tl) as (y & Hy)
  end.
  congruence.
Qed.

(** The text strategy 1 takes out of a fenced [html] block holds no fence:
    the block ends at the first closing fence after its opening. *)
Theorem span1_has_no_fence (response_text w : str) :
  span1 response_text = Some w -> Py.contains (lit "```") w = false.
Proof.
  intros H.
  destruct (Py.contains (lit "```") w) eqn:E; [|reflexivity]. exfalso.
  apply contains_infix in E. revert H. unfold span1.
  destruct (search true re_fence_html response_text) as [m|] eqn:S;
    [|discriminate].
  destruct (search_hit _ _ _ _ S) as (s0 & Hm).
  destruct (fence_group_clean _ _ _ Hm) as (u & Hg & Hclean).
  assert (Hu : group1 m = u) by (unfold group1; now rewrite Hg).
  rewrite Hu.
  destruct (search true re_break_lead_in (Py.strip u)) as [sm|] eqn:B;
    intros H; inversion H; subst; apply Hclean.
  - apply (infix_trans _ _ _ E), (infix_trans _ _ _ (strip_infix _)).
    apply (infix_trans _ _ _ (search_pre_infix _ _ _ _ B)), strip_infix.
  - apply (infix_trans _ _ _ E), strip_infix.
Qed.

Lemma span1_has_no_fence_witness :
  Py.contains (lit "```") (lit "<b>x</b>") = false.
Proof.
  exact (span1_has_no_fence mixed_response (lit "<b>x</b>") eq_refl).
Defined.

(** ** Where strategy 4 stops *)






(** ** The not-found test *)

(** The third test of line 207 never decides: an error counts as a missing
    model exactly when its text holds [404] or [not_found]. *)
Theorem not_found_test (e : exn) :
  is_not_found e =
  Py.contains (lit "404") (exn_str e) || Py.contains (lit "not_found") (exn_str e).
Proof.
  unfold is_not_found.
  assert (H : Py.contains (lit "not_found_error") (exn_str e) = true ->
              Py.contains (lit "not_found") (exn_str e) = true).
  { intros H. apply contains_infix. apply contains_infix in H.
    apply (infix_trans _ (lit "not_found_error")); [|exact H].
    now exists [], (lit "_error"). }
  destruct (Py.contains (lit "404") (exn_str e)); [reflexivity|].
  destruct (Py.contains (lit "not_found") (exn_str e)); [reflexivity|].
  destruct (Py.contains (lit "not_found_error") (exn_str e)); [|reflexivity].
  discriminate (H eq_refl).
Qed.


(** ** The group of a match is set *)

Lemma lang_keeps_group (ic : bool) (r : re) :
  forall (u : str) (g g' : option str) (c : str),
  lang ic r u g g' -> g = Some c -> exists c', g' = Some c'.
Proof.
  induction r as [p|cs|cs|cs|r1 IH1 r2 IH2|r1 IH1 r2 IH2|r1 IH1];
    intros u g g' c L Hg; simpl in L.
  - destruct L as [_ ->]. eauto.
  - destruct L as [_ ->]. eauto.
  - destruct L as (_ & _ & ->). eauto.
  - destruct L as [_ ->]. eauto.
  - destruct L as (u1 & u2 & gm & _ & L1 & L2).
    destruct (IH1 _ _ _ _ L1 Hg) as (c1 & Hc1). exact (IH2 _ _ _ _ L2 Hc1).
  - destruct L as [L|L]; eauto.
  - destruct L as (g1 & _ & ->). eauto.
Qed.

Lemma lang_sets_group (ic : bool) (r : re) :
  sets_group r = true ->
  forall (u : str) (g g' : option str),
  lang ic r u g g' -> exists c, g' = Some c.
Proof.
  induction r as [p|cs|cs|cs|r1 IH1 r2 IH2|r1 IH1 r2 IH2|r1 IH1];
    intros Hs u g g' L; simpl in Hs, L; try discriminate.
  - destruct L as (u1 & u2 & gm & _ & L1 & L2).
    destruct (sets_group r1) eqn:E1.
    + destruct (IH1 eq_refl _ _ _ L1) as (c & Hc).
      exact (lang_keeps_group ic r2 _ _ _ _ L2 Hc).
    + exact (IH2 Hs _ _ _ L2).
  - apply andb_prop in Hs as [H1 H2]. destruct L as [L|L]; eauto.
  - destruct L as (g1 & _ & ->). eauto.
Qed.

Lemma search_sets_group (ic : bool) (r : re) (s : str) (m : rmatch) :
  sets_group r = true -> search ic r s = Some m -> exists c, m_group m = Some c.
Proof.
  intros Hs H. destruct (search_sound _ _ _ _ H) as [_ L].
  exact (lang_sets_group ic r Hs _ _ _ L).
Qed.

(** ** Responses without any [<] *)

Lemma last_resort_wraps (response_text : str) :
  last_resort response_text = wrapper_open ++ response_text ++ wrapper_close.
Proof.
  unfold last_resort, wrapper_open, wrapper_close.
  generalize (qq "        <div style=`padding: 20px; font-family: system-ui;`>").
  generalize (lit "            "). generalize (lit "        </div>").
  generalize (lit "        "). intros d c b a.
  repeat (simpl; rewrite <- app_assoc). reflexivity.
Qed.

Lemma extract_tagfree (response_text : str) :
  Py.contains (lit "<") response_text = false ->
  extract response_text =
  Ok match span1 response_text with
     | Some w => w
     | None => last_resort response_text
     end.
Proof.
  intros Hc. pose proof (no_lt _ Hc) as Hn.
  unfold extract, method1.
  destruct (span1 response_text) as [w1|] eqn:E1; simpl.
  { f_equal. rewrite clean_html_tagfree.
    - exact (span1_trimmed _ _ E1).
    - intros Hin. apply Hn, (infix_In _ _ _ (span1_infix _ _ E1)), Hin. }
  assert (H2 : method2 response_text = Ok None).
  { unfold method2, span2.
    now rewrite (search_none_lt true re_html_doc _ lt_html_doc Hn). }
  assert (H3 : method3 response_text = Ok None).
  { unfold method3. destruct (span3 response_text) as [[w3|]|] eqn:E3.
    - exfalso. destruct (span3_infix _ _ E3) as [Hi Hw].
      apply Hn, (infix_In _ _ _ Hi). now apply (contains_char lt w3).
    - reflexivity.
    - destruct (span3_ok response_text) as (w & Hw). congruence. }
  assert (H4 : method4 response_text = None).
  { unfold method4, span4.
    now rewrite (search_none_lt false re_tag_span _ lt_tag_span Hn). }
  assert (H5 : method5 response_text = None).
  { unfold method5, span5.
    destruct (Py.startswith (lit "<") (Py.strip response_text)) eqn:E;
      [|reflexivity].
    exfalso. apply Hn. apply startswith_prefix in E as (b & Hb).
    apply (infix_In _ _ _ (strip_infix response_text)). rewrite Hb. now left. }
  assert (H6 : method6 response_text = None).
  { unfold method6, span6. now rewrite Hc. }
  now rewrite H2, H3, H4, H5, H6.
Qed.

Lemma span1_needs_backquote (response_text : str) :
  Py.contains (lit "`") response_text = false -> span1 response_text = None.
Proof.
  intros Hc. unfold span1.
  destruct (search true re_fence_html response_text) as [m|] eqn:E;
    [|reflexivity].
  exfalso. destruct (search_sound _ _ _ _ E) as [Hs L].
  apply fence_html_lang in L as (f & w1 & c & w2 & Ht & Hf & _).
  assert (Hin : In (code "`") response_text).
  { rewrite Hs, Ht. apply in_or_app. right. apply in_or_app. left.
    apply in_or_app. left. unfold spells in Hf.
    destruct f as [|b f]; [discriminate Hf|].
    cbn [lit lit_eq list_ascii_of_string map] in Hf.
    apply andb_prop in Hf as [Hb _]. apply backquote_only in Hb. now left. }
  apply (contains_char (code "`") response_text) in Hin.
  change (lit "`") with [code "`"] in Hc. congruence.
Qed.

(** A response without any [<] is given back as what strategy 1 selects
    from its fenced [html] block (the content of the block, trimmed and cut
    before a lead-in) when it has such a block, and otherwise inside the
    wrapper of the last resort; strategies 2 to 6 never take it. *)
Theorem response_without_tags (response_text : str) :
  Py.contains (lit "<") response_text = false ->
  extract response_text =
  Ok match span1 response_text with
     | Some w => w
     | None => wrapper_open ++ response_text ++ wrapper_close
     end.
Proof.
  intros H. rewrite (extract_tagfree _ H).
  destruct (span1 response_text); [reflexivity|].
  now rewrite last_resort_wraps.
Qed.

Lemma response_without_tags_witness :
  extract plain_text = Ok (wrapper_open ++ plain_text ++ wrapper_close).
Proof. exact (response_without_tags plain_text eq_refl). Defined.

(** C2: [extract] returns a string for every response and never raises:
    [re.split(...)[0]] always exists, and [group(1)] of every pattern whose
    group the code reads is set in every match.  When none of the first six
    strategies takes the response, as for every response that holds neither
    a [<] nor a backquote (the empty one among them), the result is the
    response as it is between the opening and the closing of a [div]. *)
Theorem extract_total (response_text : str) :
  (exists widget_html, extract response_text = Ok widget_html) /\
  (forall ic r s m, In (ic, r) group_patterns -> search ic r s = Some m ->
                    exists c, m_group m = Some c) /\
  (method1 response_text = None ->
   method2 response_text = Ok None ->
   method3 response_text = Ok None ->
   method4 response_text = None ->
   method5 response_text = None ->
   method6 response_text = None ->
   extract response_text =
   Ok (wrapper_open ++ response_text ++ wrapper_close)) /\
  (Py.contains (lit "<") response_text = false ->
   Py.contains (lit "`") response_text = false ->
   extract response_text =
   Ok (wrapper_open ++ response_text ++ wrapper_close)) /\
  Py.startswith (Py.nl :: lit "        <div style=") wrapper_open = true /\
  Py.endswith (lit "</div>" ++ Py.nl :: lit "        ") wrapper_close = true.
Proof.
  split; [apply extract_ok|]. split; [|split; [|split]].
  - intros ic r s m Hin. apply search_sets_group.
    simpl in Hin.
    repeat (destruct Hin as [Hin|Hin]; [now inversion Hin|]). contradiction.
  - intros H1 H2 H3 H4 H5 H6. unfold extract.
    rewrite H1, H2, H3, H4, H5, H6. simpl. now rewrite last_resort_wraps.
  - intros Hlt Hbq. rewrite (extract_tagfree _ Hlt).
    rewrite (span1_needs_backquote _ Hbq). now rewrite last_resort_wraps.
  - split; reflexivity.
Qed.

Lemma extract_total_witness :
  extract plain_text = Ok (wrapper_open ++ plain_text ++ wrapper_close) /\
  extract [] = Ok (wrapper_open ++ wrapper_close).
Proof.
  split.
  - exact (proj1 (proj2 (proj2 (proj2 (extract_total plain_text))))
             eq_refl eq_refl).
  - exact (proj1 (proj2 (proj2 (proj2 (extract_total []))))
             eq_refl eq_refl).
Defined.

(** C7 as stated fails: a blank line that holds a blank is a paragraph
    break, yet after it the commentary stays.  On the fenced [<div>X</div>],
    a line with one blank and the commentary, the content is kept whole. *)
Lemma blank_line_with_space_keeps_commentary :
  ~ (forall (response_text : str) (m : rmatch) (pre gap ws p rest : str),
       search true re_fence_html response_text = Some m ->
       Py.strip (group1 m) = pre ++ Py.nl :: gap ++ Py.nl :: ws ++ p ++ rest ->
       blank gap -> blank ws -> lead_in long_phrases p ->
       exists kept more,
         pre = kept ++ more /\
         extract response_text = Ok (clean_html (Py.strip kept))).
Proof.
  intros H.
  destruct (H spaced_fence
              (MkMatch [] spaced_fence
                 (Some (lit "<div>X</div>" ++ Py.nl :: code " " :: Py.nl ::
                        lit "Here's the widget you wanted")) [])
              (lit "<div>X</div>") [code " "] [] (lit "Here's")
              (lit " the widget you wanted")
              eq_refl eq_refl eq_refl eq_refl
              (ex_intro _ (lit "Here's") (conj (or_introl eq_refl) eq_refl)))
    as (kept & more & Hp & He).
  assert (Hk : kept = firstn (length kept) (lit "<div>X</div>")).
  { rewrite Hp. rewrite firstn_app, Nat.sub_diag, firstn_all. simpl.
    now rewrite app_nil_r. }
  assert (Hl : length kept <= 12).
  { apply (f_equal (@length char)) in Hp. rewrite length_app in Hp.
    change (length (lit "<div>X</div>")) with 12 in Hp. lia. }
  rewrite Hk in He. clear Hk Hp. revert He Hl.
  generalize (length kept) as n. intros n He Hl.
  do 13 (destruct n as [|n]; [vm_compute in He; discriminate He|]).
  lia.
Qed.
